(** * Cosine noise schedule and forward-diffusion corruption

    A shallow embedding of [experiments/synthesizer-img/train.py]:
    the schedule builder [cosine_alphas_bar], the reversed schedule
    [alphas] used by the training loop, the corruption arithmetic of the
    training and validation loops, and the epoch loop with its resume
    conditional.

    Tensors of 32-bit floats are idealised as lists of real numbers: the
    arithmetic below is the arithmetic of the source read over [R]. *)

From Stdlib Require Import Reals Lra Lia ZArith List Bool.
Import ListNotations.

Open Scope R_scope.

(** ** Errors and the error monad *)

Inductive error : Type :=
| IndexError          (* an index outside the indexed dimension *)
| RuntimeError        (* the tensor library rejects its arguments *)
| ZeroDivisionError.  (* Python division by zero *)

Inductive result (A : Type) : Type :=
| Ok (a : A)
| Raise (e : error).

Arguments Ok {A} a.
Arguments Raise {A} e.

Definition bind {A B : Type} (m : result A) (k : A -> result B) : result B :=
  match m with
  | Ok a => k a
  | Raise e => Raise e
  end.

Notation "x <- m ;; k" := (bind m (fun x => k))
  (at level 61, m at next level, right associativity).

Fixpoint mapM {A B : Type} (f : A -> result B) (l : list A) : result (list B) :=
  match l with
  | [] => Ok []
  | a :: l' => b <- f a ;; bs <- mapM f l' ;; Ok (b :: bs)
  end.

(** ** The tensor operations the script calls *)

Module Torch.

(** [torch.linspace(start, end, steps)]: [steps] points from [start] to
    [end], both included, at the constant distance
    [(end - start) / (steps - 1)].  One point is [start] alone; a negative
    number of points is refused. *)
Definition linspace (start end_ : R) (steps : Z) : result (list R) :=
  if (steps <? 0)%Z then Raise RuntimeError
  else Ok (map (fun i => start + INR i * ((end_ - start) / (IZR steps - 1)))
               (seq 0 (Z.to_nat steps))).

(** [t[i]] for an integer [i]: a negative index counts from the end, and
    an index outside [-len, len) raises. *)
Definition getitem {A : Type} (t : list A) (i : Z) : result A :=
  let n := Z.of_nat (length t) in
  let j := if (i <? 0)%Z then (i + n)%Z else i in
  if ((0 <=? j) && (j <? n))%Z
  then match nth_error t (Z.to_nat j) with
       | Some v => Ok v
       | None => Raise IndexError
       end
  else Raise IndexError.

(** [t[idx]] for a tensor [idx] of integers: one lookup per index. *)
Definition index {A : Type} (t : list A) (idx : list Z) : result (list A) :=
  mapM (getitem t) idx.

(** [t[:n]]: the first [n] entries; a negative [n] drops the last [-n]. *)
Definition slice_to {A : Type} (t : list A) (n : Z) : list A :=
  if (0 <=? n)%Z then firstn (Z.to_nat n) t
  else firstn (length t - Z.to_nat (- n)) t.

(** [torch.flip(t, (0,))]. *)
Definition flip {A : Type} (t : list A) : list A := rev t.

End Torch.

(** ** The schedule: [cosine_alphas_bar] *)

(** The curve evaluated at one grid point [x]. *)
Definition cos_curve (steps : Z) (s x : R) : R :=
  cos ((x / IZR steps + s) / (1 + s) * PI * 0.5) ^ 2.

Definition cosine_alphas_bar (timesteps : Z) (s : R) : result (list R) :=
  let steps := (timesteps + 1)%Z in
  x <- Torch.linspace 0 (IZR steps) steps ;;
  let alphas_bar := map (cos_curve steps s) x in
  a0 <- Torch.getitem alphas_bar 0 ;;
  let alphas_bar := map (fun v => v / a0) alphas_bar in
  Ok (Torch.slice_to alphas_bar timesteps).

(** The default of the keyword argument [s]. *)
Definition default_s : R := 0.008.

(** [alphas = torch.flip(cosine_alphas_bar(params.timesteps), (0,))]; the
    configuration value [params.timesteps] is a parameter here. *)
Definition alphas (timesteps : Z) (s : R) : result (list R) :=
  a <- cosine_alphas_bar timesteps s ;; Ok (Torch.flip a).

(** ** The corruption step of the training and validation loops *)

(** One sample is a [channels x height x width] array; [images] and
    [random_sample] are batches of samples. *)
Abbreviation image := (list (list (list R))) (only parsing).
Abbreviation batch := (list image) (only parsing).

Fixpoint map2 {A B C : Type} (f : A -> B -> C) (l1 : list A) (l2 : list B) : list C :=
  match l1, l2 with
  | a :: l1', b :: l2' => f a b :: map2 f l1' l2'
  | _, _ => []
  end.

(** A tensor of shape [(bs, 1, 1, 1)] times a batch: every entry of sample
    [b] is multiplied by the [b]-th weight. *)
Definition bmul (w : list R) (t : batch) : batch :=
  map2 (fun c => map (map (map (Rmult c)))) w t.

(** Entrywise sum of two batches of one shape. *)
Definition tadd (t1 t2 : batch) : batch :=
  map2 (map2 (map2 (map2 Rplus))) t1 t2.

(** The two mixing weights, [alpha_batch.sqrt()] and
    [(1 - alpha_batch).sqrt()].  [sqrt] of the real numbers is [0] below
    zero, where the tensor library has no number; schedule entries lie in
    (0, 1], where the two agree. *)
Definition signal_weight (a : R) : R := sqrt a.
Definition noise_weight (a : R) : R := sqrt (1 - a).

(** [alpha_batch.sqrt() * images + (1 - alpha_batch).sqrt() * random_sample] *)
Definition noise_input (alpha_batch : list R) (images random_sample : batch) : batch :=
  tadd (bmul (map signal_weight alpha_batch) images)
       (bmul (map noise_weight alpha_batch) random_sample).

(** Lines 126 and 128 (and 156, 157 of the validation loop): look the
    indices up in the reversed schedule, then mix.  The source reshapes the
    entries looked up to [(bs, 1, 1, 1)] and draws the noise with
    [randn_like]: there is one index per sample and the noise has the shape
    of the images.  The mix pairs entries position by position and is meant
    on such inputs, which the properties below assume; the reshape and the
    broadcast that fail on others in the source are not modelled. *)
Definition corrupt (alphas_ : list R) (rand_index : list Z)
    (images random_sample : batch) : result batch :=
  alpha_batch <- Torch.index alphas_ rand_index ;;
  Ok (noise_input alpha_batch images random_sample).

(** Shapes and entries of a batch. *)
Definition has_shape (B C H W : nat) (t : batch) : Prop :=
  length t = B /\
  Forall (fun img => length img = C /\
    Forall (fun plane => length plane = H /\
      Forall (fun row => length row = W) plane) img) t.

Definition entry (t : batch) (b c h w : nat) : R :=
  nth w (nth h (nth c (nth b t []) []) []) 0.

(** [torch.zeros] and [torch.ones] at a given shape. *)
Definition full (B C H W : nat) (v : R) : batch :=
  repeat (repeat (repeat (repeat v W) H) C) B.
Definition zeros (B C H W : nat) : batch := full B C H W 0.
Definition ones (B C H W : nat) : batch := full B C H W 1.

(** ** The algorithm as the specification words it *)

(** [n] evenly spaced sample points over [[lo, hi]]: the first is [lo], the
    last is [hi], and neighbours are all at one distance. *)
Definition evenly_spaced (lo hi : R) (n : nat) (xs : list R) : Prop :=
  length xs = n /\
  nth 0 xs 0 = lo /\
  nth (n - 1) xs 0 = hi /\
  exists d, forall i, (S i < n)%nat -> nth (S i) xs 0 - nth i xs 0 = d.

Definition build_schedule_spec (timesteps : Z) (s : R) (out : list R) : Prop :=
  let steps := (timesteps + 1)%Z in
  exists xs,
    evenly_spaced 0 (IZR steps) (Z.to_nat steps) xs /\
    let curve := map (fun x => cos (((x / IZR steps + s) / (1 + s)) * (PI / 2)) ^ 2) xs in
    let normalized := map (fun v => v / nth 0 curve 0) curve in
    out = firstn (Z.to_nat timesteps) normalized.

(** ** Closed forms

    Auxiliary expressions the proofs evaluate the schedule to. *)

(** The closed form of one schedule entry. *)
Definition closed_form (T : Z) (s : R) (i : nat) : R :=
  cos (((INR i / IZR T + s) / (1 + s)) * (PI / 2)) ^ 2 /
  cos ((s / (1 + s)) * (PI / 2)) ^ 2.

(** The sequence of closed forms, one per timestep. *)
Definition closed_schedule (T : Z) (s : R) : list R :=
  map (closed_form T s) (seq 0 (Z.to_nat T)).

(** The angle whose cosine that entry squares. *)
Definition angle (T : Z) (s : R) (i : nat) : R :=
  ((INR i / IZR T + s) / (1 + s)) * (PI / 2).

(** The grid of [Torch.linspace 0 steps steps] for [steps = T + 1]. *)
Definition grid_point (T : Z) (i : nat) : R :=
  0 + INR i * ((IZR (T + 1) - 0) / (IZR (T + 1) - 1)).

(** ** The script in its process state *)

(** A step of the script run in the process state [World]: the global
    random generator of the tensor library and whatever else the process
    holds.  A step returns its outcome and the state it leaves. *)
Definition Action (World A : Type) : Type := World -> result A * World.





(** Lines 122 and 124, the two calls of the training step that do draw:
    [torch.randint] and [torch.randn_like], on the generator. *)
Definition draw_action {Rng : Type}
    (randint : Rng -> Z -> nat -> Rng * list Z)
    (randn_like : Rng -> batch -> Rng * batch)
    (timesteps : Z) (images : batch) : Action Rng (list Z * batch) :=
  fun g =>
    let (g1, rand_index) := randint g timesteps (length images) in
    let (g2, random_sample) := randn_like g1 images in
    (Ok (rand_index, random_sample), g2).

(** ** The epoch loop *)

(** What the script prints. *)
Inductive output : Type :=
| EpochRunning (epoch : Z)      (* "Epoch runnin: " + str(epoch) *)
| ValidationLoss (v : R)        (* "Validation Loss: ..." *)
| ModelSaved                    (* "Model saved with checkpoint!" *)
| SkippingEpoch (epoch : Z).    (* "Skipping epoch " + str(epoch) *)

Section TrainingLoop.

(** The network, the optimizer, the learning-rate scheduler, the random
    generator and the label vectors belong to the framework. *)
Variables Net Opt LrSched Rng Labels : Type.

(** [torch.randint(high, (bs,))] and [torch.randn_like(images)]. *)
Variable randint : Rng -> Z -> nat -> Rng * list Z.
Variable randn_like : Rng -> batch -> Rng * batch.

(** [u_net(noise_input, rand_index, labels)], [F.l1_loss] against the
    clean images, and for training [zero_grad], [backward] and
    [optimizer.step()]; the flag is the network's train/eval mode. *)
Variable fit : Net -> bool -> Opt -> batch -> list Z -> Labels -> batch -> Net * Opt * R.
Variable evaluate : Net -> bool -> batch -> list Z -> Labels -> batch -> R.

(** [lr_schedule.step()] rewrites the optimizer's learning rate. *)
Variable lr_step : LrSched -> Opt -> LrSched * Opt.

(** A data loader: its number of batches and one shuffled pass. *)
Record DataLoader : Type := {
  len : nat;
  iterate : Rng -> Rng * list (batch * Labels)
}.

Variables train_dataloader test_dataloader : DataLoader.

(** [params.timesteps] and the reversed schedule [alphas]. *)
Variable timesteps : Z.
Variable alphas_ : list R.

(** The file [diffusion_checkpoint.pth]. *)
Record Checkpoint : Type := {
  ck_epoch : Z;
  model_state_dict : Net;
  optimizer_state_dict : Opt
}.

Record state : Type := {
  u_net : Net;
  training : bool;
  optimizer : Opt;
  lr_schedule : LrSched;
  loss_log : list R;
  mean_loss : R;
  rng : Rng;
  checkpoint_file : option Checkpoint;
  stdout : list output
}.

Definition print (o : output) (st : state) : state :=
  {| u_net := u_net st; training := training st; optimizer := optimizer st;
     lr_schedule := lr_schedule st; loss_log := loss_log st;
     mean_loss := mean_loss st; rng := rng st;
     checkpoint_file := checkpoint_file st; stdout := stdout st ++ [o] |}.

Definition set_rng (g : Rng) (st : state) : state :=
  {| u_net := u_net st; training := training st; optimizer := optimizer st;
     lr_schedule := lr_schedule st; loss_log := loss_log st;
     mean_loss := mean_loss st; rng := g;
     checkpoint_file := checkpoint_file st; stdout := stdout st |}.

Definition set_mean_loss (m : R) (st : state) : state :=
  {| u_net := u_net st; training := training st; optimizer := optimizer st;
     lr_schedule := lr_schedule st; loss_log := loss_log st;
     mean_loss := m; rng := rng st;
     checkpoint_file := checkpoint_file st; stdout := stdout st |}.

(** Two states that differ at most in what was printed. *)
Definition same_but_stdout (st st' : state) : Prop :=
  u_net st' = u_net st /\
  training st' = training st /\
  optimizer st' = optimizer st /\
  lr_schedule st' = lr_schedule st /\
  loss_log st' = loss_log st /\
  mean_loss st' = mean_loss st /\
  rng st' = rng st /\
  checkpoint_file st' = checkpoint_file st.

Fixpoint foldM {A S : Type} (f : S -> A -> result S) (l : list A) (st : S) : result S :=
  match l with
  | [] => Ok st
  | a :: l' => st' <- f st a ;; foldM f l' st'
  end.

(** Lines 116 to 142: one training step on one minibatch. *)
Definition train_batch (st : state) (b : batch * Labels) : result state :=
  let (images, labels) := b in
  let bs := length images in
  let (g1, rand_index) := randint (rng st) timesteps bs in
  let (g2, random_sample) := randn_like g1 images in
  noisy <- corrupt alphas_ rand_index images random_sample ;;
  let '(net', opt', loss) :=
    fit (u_net st) (training st) (optimizer st) noisy rand_index labels images in
  Ok {| u_net := net'; training := training st; optimizer := opt';
        lr_schedule := lr_schedule st; loss_log := loss_log st ++ [loss];
        mean_loss := mean_loss st + loss; rng := g2;
        checkpoint_file := checkpoint_file st; stdout := stdout st |}.

(** Lines 150 to 162: one validation batch; the accumulator is
    [val_loss] with the generator. *)
Definition validate_batch (net : Net) (mode : bool) (acc : Rng * R)
    (b : batch * Labels) : result (Rng * R) :=
  let (images, labels) := b in
  let bs := length images in
  let (g1, rand_index) := randint (fst acc) timesteps bs in
  let (g2, random_sample) := randn_like g1 images in
  noisy <- corrupt alphas_ rand_index images random_sample ;;
  Ok (g2, snd acc + evaluate net mode noisy rand_index labels images).

(** Lines 111 to 171: the body of an epoch that runs. *)
Definition run_epoch (epoch : Z) (st : state) : result state :=
  let st := print (EpochRunning epoch) st in
  if Nat.eqb (len train_dataloader) 0 then Raise ZeroDivisionError else
  let st := set_mean_loss 0 st in
  let (g, batches) := iterate train_dataloader (rng st) in
  st <- foldM train_batch batches (set_rng g st) ;;
  let (sched', opt') := lr_step (lr_schedule st) (optimizer st) in
  let (g, vbatches) := iterate test_dataloader (rng st) in
  r <- foldM (validate_batch (u_net st) false) vbatches (g, 0) ;;
  if Nat.eqb (len test_dataloader) 0 then Raise ZeroDivisionError else
  let val_loss := snd r / INR (len test_dataloader) in
  Ok {| u_net := u_net st; training := false; optimizer := opt';
        lr_schedule := sched'; loss_log := loss_log st;
        mean_loss := mean_loss st; rng := fst r;
        checkpoint_file :=
          Some {| ck_epoch := epoch; model_state_dict := u_net st;
                  optimizer_state_dict := opt' |};
        stdout := stdout st ++ [ValidationLoss val_loss; ModelSaved] |}.

(** Lines 110 to 173: one iteration of [for epoch in pbar]. *)
Definition epoch_iteration (resume_epoch : Z) (st : state) (epoch : Z) : result state :=
  if (epoch >=? resume_epoch)%Z then run_epoch epoch st
  else Ok (print (SkippingEpoch epoch) st).

(** [trange(n)] counts [0 .. n-1], nothing for [n <= 0]. *)
Definition trange (n : Z) : list Z := map Z.of_nat (seq 0 (Z.to_nat n)).

(** Lines 107 to 173. *)
Definition training_loop (train_epoch resume_epoch : Z) (st : state) : result state :=
  foldM (epoch_iteration resume_epoch) (trange train_epoch) st.

(** Lines 85 to 95: the epoch to resume at, with the network and the
    optimizer the loop starts from.  Without [params.do_reload] these are
    [-1] and the fresh ones; with it they are read from the checkpoint
    file, and a missing file makes [torch.load] fail ([None]).  The two
    lines printed on reload are left out. *)
Definition reload (do_reload : bool) (file : option Checkpoint) (net : Net) (opt : Opt)
    : option (Z * Net * Opt) :=
  if do_reload then
    match file with
    | Some checkpoint =>
        Some (ck_epoch checkpoint, model_state_dict checkpoint,
              optimizer_state_dict checkpoint)
    | None => None
    end
  else Some ((-1)%Z, net, opt).

End TrainingLoop.

Arguments u_net {Net Opt LrSched Rng} s.
Arguments training {Net Opt LrSched Rng} s.
Arguments optimizer {Net Opt LrSched Rng} s.
Arguments lr_schedule {Net Opt LrSched Rng} s.
Arguments loss_log {Net Opt LrSched Rng} s.
Arguments mean_loss {Net Opt LrSched Rng} s.
Arguments rng {Net Opt LrSched Rng} s.
Arguments checkpoint_file {Net Opt LrSched Rng} s.
Arguments stdout {Net Opt LrSched Rng} s.
Arguments print {Net Opt LrSched Rng} o st.
Arguments same_but_stdout {Net Opt LrSched Rng} st st'.
Arguments run_epoch {Net Opt LrSched Rng Labels}.
Arguments train_batch {Net Opt LrSched Rng Labels}.
Arguments validate_batch {Net Rng Labels}.
Arguments reload {Net Opt}.
Arguments len {Rng Labels} d.
Arguments iterate {Rng Labels} d.
Arguments ck_epoch {Net Opt} c.
Arguments model_state_dict {Net Opt} c.
Arguments optimizer_state_dict {Net Opt} c.

(** ** Auxiliary notions of the loop's properties *)

(** The sum of a list of losses. *)
Definition sum_losses (l : list R) : R := fold_right Rplus 0 l.

(** The three lines an epoch that runs prints. *)
Definition epoch_lines (ev : Z * R) : list output :=
  [EpochRunning (fst ev); ValidationLoss (snd ev); ModelSaved].

(** A generator whose [randint(high, (n,))] draws every index in
    [0, high), as [torch.randint] does. *)
Definition draws_below {Rng : Type} (randint : Rng -> Z -> nat -> Rng * list Z)
    (high : Z) : Prop :=
  forall g n, Forall (fun t => (0 <= t < high)%Z) (snd (randint g high n)).

(** A data loader whose every pass yields [len] batches. *)
Definition yields_len {Rng Labels : Type} (d : DataLoader Rng Labels) : Prop :=
  forall g, length (snd (iterate d g)) = len d.
Arguments epoch_iteration {Net Opt LrSched Rng Labels}.
Arguments training_loop {Net Opt LrSched Rng Labels}.

(** * Properties *)

(** ** Lists *)

Lemma firstn_seq_le (a n m : nat) :
  (n <= m)%nat -> firstn n (seq a m) = seq a n.
Proof.
  revert a m; induction n as [|n IH]; intros a m Hle; [reflexivity|].
  destruct m as [|m]; [lia|].
  simpl. f_equal. apply IH. lia.
Qed.

Lemma nth_map_seq {A : Type} (f : nat -> A) (n i : nat) (d : A) :
  (i < n)%nat -> nth i (map f (seq 0 n)) d = f i.
Proof.
  intros Hi.
  rewrite (nth_indep _ d (f 0%nat)) by (rewrite length_map, length_seq; exact Hi).
  rewrite (map_nth f (seq 0 n) 0%nat i), seq_nth by exact Hi.
  reflexivity.
Qed.

Lemma list_eq_map_seq {A : Type} (f : nat -> A) (l : list A) (d : A) :
  (forall i, (i < length l)%nat -> nth i l d = f i) ->
  l = map f (seq 0 (length l)).
Proof.
  intros H.
  apply (nth_ext _ _ d d).
  - now rewrite length_map, length_seq.
  - intros i Hi. rewrite nth_map_seq by exact Hi. now apply H.
Qed.

(** ** Indexing *)

Lemma getitem_nonneg {A : Type} (t : list A) (i : Z) (d : A) :
  (0 <= i < Z.of_nat (length t))%Z ->
  Torch.getitem t i = Ok (nth (Z.to_nat i) t d).
Proof.
  intros [H0 H1]. unfold Torch.getitem.
  destruct (Z.ltb_spec i 0) as [|_]; [lia|].
  destruct (Z.leb_spec 0 i) as [_|]; [|lia].
  destruct (Z.ltb_spec i (Z.of_nat (length t))) as [_|]; [|lia].
  cbn [andb].
  destruct (nth_error t (Z.to_nat i)) as [v|] eqn:E.
  - now rewrite (nth_error_nth _ _ d E).
  - apply nth_error_None in E. lia.
Qed.

Lemma getitem_negative {A : Type} (t : list A) (i : Z) (d : A) :
  (- Z.of_nat (length t) <= i < 0)%Z ->
  Torch.getitem t i = Ok (nth (Z.to_nat (i + Z.of_nat (length t))) t d).
Proof.
  intros [H0 H1]. unfold Torch.getitem.
  destruct (Z.ltb_spec i 0) as [_|]; [|lia].
  destruct (Z.leb_spec 0 (i + Z.of_nat (length t))) as [_|]; [|lia].
  destruct (Z.ltb_spec (i + Z.of_nat (length t)) (Z.of_nat (length t))) as [_|]; [|lia].
  cbn [andb].
  destruct (nth_error t (Z.to_nat (i + Z.of_nat (length t)))) as [v|] eqn:E.
  - now rewrite (nth_error_nth _ _ d E).
  - apply nth_error_None in E. lia.
Qed.

Lemma getitem_out_of_range {A : Type} (t : list A) (i : Z) :
  (i < - Z.of_nat (length t) \/ Z.of_nat (length t) <= i)%Z ->
  Torch.getitem t i = Raise IndexError.
Proof.
  intros H. unfold Torch.getitem.
  destruct (Z.ltb_spec i 0) as [Hn|Hp].
  - destruct (Z.leb_spec 0 (i + Z.of_nat (length t))) as [Hq|_]; [lia|].
    reflexivity.
  - destruct (Z.leb_spec 0 i) as [_|]; [|lia].
    destruct (Z.ltb_spec i (Z.of_nat (length t))) as [|_]; [lia|].
    reflexivity.
Qed.

(** ** The angle fed to the cosine *)

Lemma closed_form_angle (T : Z) (s : R) (i : nat) :
  closed_form T s i = cos (angle T s i) ^ 2 / cos (angle T s 0) ^ 2.
Proof.
  unfold closed_form, angle. simpl INR.
  replace (0 / IZR T + s) with s by (unfold Rdiv; ring).
  reflexivity.
Qed.

Section Angle.

Variables (T : Z) (s : R).
Hypothesis T_pos : (0 < T)%Z.
Hypothesis s_pos : 0 < s.

Lemma IZR_T_pos : 0 < IZR T.
Proof. now apply IZR_lt. Qed.

Lemma INR_lt_T (i : nat) : (Z.of_nat i < T)%Z -> INR i < IZR T.
Proof. intros H. rewrite INR_IZR_INZ. now apply IZR_lt. Qed.

(** The fraction [(i/T + s) / (1 + s)] lies in (0, 1) below [T]. *)
Lemma fraction_bounds (i : nat) :
  (Z.of_nat i < T)%Z ->
  0 < (INR i / IZR T + s) / (1 + s) < 1.
Proof.
  intros Hi.
  pose proof IZR_T_pos as HT.
  pose proof (INR_lt_T i Hi) as HiT.
  pose proof (pos_INR i) as Hi0.
  assert (Hq : 0 <= INR i / IZR T < 1).
  { split.
    - apply Rmult_le_pos; [exact Hi0 | left; now apply Rinv_0_lt_compat].
    - apply (Rmult_lt_reg_r (IZR T)); [exact HT|].
      unfold Rdiv. rewrite Rmult_assoc, Rinv_l by lra. lra. }
  split.
  - apply Rdiv_lt_0_compat; lra.
  - apply (Rmult_lt_reg_r (1 + s)); [lra|].
    unfold Rdiv. rewrite Rmult_assoc, Rinv_l by lra. lra.
Qed.

Lemma angle_bounds (i : nat) :
  (Z.of_nat i < T)%Z -> 0 < angle T s i < PI / 2.
Proof.
  intros Hi. pose proof (fraction_bounds i Hi) as [H0 H1].
  pose proof PI_RGT_0 as Hpi.
  unfold angle. split.
  - apply Rmult_lt_0_compat; lra.
  - rewrite <- (Rmult_1_l (PI / 2)) at 2.
    apply Rmult_lt_compat_r; lra.
Qed.

Lemma angle_mono (i j : nat) :
  (i <= j)%nat -> angle T s i <= angle T s j.
Proof.
  intros Hij. pose proof IZR_T_pos as HT. pose proof PI_RGT_0 as Hpi.
  assert (Hle : INR i <= INR j) by now apply le_INR.
  unfold angle.
  apply Rmult_le_compat_r; [lra|].
  apply Rmult_le_compat_r; [left; apply Rinv_0_lt_compat; lra|].
  apply Rplus_le_compat_r.
  apply Rmult_le_compat_r; [left; now apply Rinv_0_lt_compat | exact Hle].
Qed.

Lemma cos_angle_pos (i : nat) :
  (Z.of_nat i < T)%Z -> 0 < cos (angle T s i).
Proof.
  intros Hi. pose proof (angle_bounds i Hi) as [H0 H1].
  apply cos_gt_0; lra.
Qed.

Lemma cos_angle_antitone (i j : nat) :
  (i <= j)%nat -> (Z.of_nat j < T)%Z ->
  cos (angle T s j) <= cos (angle T s i).
Proof.
  intros Hij Hj.
  assert (Hi : (Z.of_nat i < T)%Z) by lia.
  pose proof (angle_bounds i Hi) as [Hi0 Hi1].
  pose proof (angle_bounds j Hj) as [Hj0 Hj1].
  pose proof PI_RGT_0 as Hpi.
  apply cos_decr_1; try lra.
  now apply angle_mono.
Qed.

Lemma closed_form_pos (i : nat) :
  (Z.of_nat i < T)%Z -> 0 < closed_form T s i.
Proof.
  intros Hi. rewrite closed_form_angle.
  pose proof (cos_angle_pos i Hi) as Hc.
  assert (H0 : 0 < cos (angle T s 0)) by (apply cos_angle_pos; simpl; lia).
  apply Rdiv_lt_0_compat; simpl; rewrite Rmult_1_r; now apply Rmult_lt_0_compat.
Qed.

Lemma closed_form_antitone (i j : nat) :
  (i <= j)%nat -> (Z.of_nat j < T)%Z ->
  closed_form T s j <= closed_form T s i.
Proof.
  intros Hij Hj. rewrite !closed_form_angle.
  assert (Hi : (Z.of_nat i < T)%Z) by lia.
  pose proof (cos_angle_pos i Hi) as Hci.
  pose proof (cos_angle_pos j Hj) as Hcj.
  pose proof (cos_angle_antitone i j Hij Hj) as Hle.
  assert (H0 : 0 < cos (angle T s 0)) by (apply cos_angle_pos; simpl; lia).
  apply Rmult_le_compat_r.
  - left. apply Rinv_0_lt_compat. simpl. rewrite Rmult_1_r.
    now apply Rmult_lt_0_compat.
  - simpl. rewrite !Rmult_1_r. apply Rmult_le_compat; lra.
Qed.

Lemma closed_form_0 : closed_form T s 0 = 1.
Proof.
  rewrite closed_form_angle.
  assert (H0 : 0 < cos (angle T s 0)) by (apply cos_angle_pos; simpl; lia).
  apply Rdiv_diag. simpl. rewrite Rmult_1_r.
  apply Rgt_not_eq. now apply Rmult_lt_0_compat.
Qed.

Lemma closed_form_le_1 (i : nat) :
  (Z.of_nat i < T)%Z -> closed_form T s i <= 1.
Proof.
  intros Hi. rewrite <- closed_form_0.
  apply closed_form_antitone; [lia | exact Hi].
Qed.

End Angle.

(** ** Evaluating [cosine_alphas_bar] *)

Lemma linspace_grid (T : Z) :
  (0 <= T)%Z ->
  Torch.linspace 0 (IZR (T + 1)) (T + 1) =
  Ok (map (grid_point T) (seq 0 (S (Z.to_nat T)))).
Proof.
  intros HT. unfold Torch.linspace.
  destruct (Z.ltb_spec (T + 1) 0) as [Hneg|_]; [lia|].
  replace (Z.to_nat (T + 1)) with (S (Z.to_nat T)) by lia.
  reflexivity.
Qed.

Lemma grid_point_ratio (T : Z) (i : nat) :
  (0 < T)%Z -> grid_point T i / IZR (T + 1) = INR i / IZR T.
Proof.
  intros HT. pose proof (IZR_T_pos T HT) as Hpos.
  unfold grid_point. rewrite plus_IZR. field. lra.
Qed.

Lemma cos_curve_grid (T : Z) (s : R) (i : nat) :
  (0 < T)%Z -> cos_curve (T + 1) s (grid_point T i) = cos (angle T s i) ^ 2.
Proof.
  intros HT. unfold cos_curve, angle.
  rewrite grid_point_ratio by exact HT.
  f_equal. f_equal. lra.
Qed.

Lemma cosine_alphas_bar_closed (T : Z) (s : R) :
  (0 < T)%Z ->
  cosine_alphas_bar T s = Ok (closed_schedule T s).
Proof.
  intros HT. unfold cosine_alphas_bar.
  rewrite linspace_grid by lia.
  cbn [bind].
  rewrite (getitem_nonneg _ 0%Z 0)
    by (rewrite !length_map, length_seq; lia).
  cbn [bind]. unfold Torch.slice_to.
  destruct (Z.leb_spec 0 T) as [_|]; [|lia].
  f_equal.
  rewrite !map_map, firstn_map, firstn_seq_le by lia.
  rewrite nth_map_seq by lia.
  apply map_ext. intros i.
  rewrite !cos_curve_grid by exact HT.
  now rewrite closed_form_angle.
Qed.

Lemma alphas_closed (T : Z) (s : R) :
  (0 < T)%Z ->
  alphas T s = Ok (rev (closed_schedule T s)).
Proof.
  intros HT. unfold alphas. now rewrite cosine_alphas_bar_closed.
Qed.

Lemma raw_length (T : Z) (s : R) :
  length (closed_schedule T s) = Z.to_nat T.
Proof. unfold closed_schedule. now rewrite length_map, length_seq. Qed.

Lemma raw_nth (T : Z) (s : R) (i : nat) :
  (i < Z.to_nat T)%nat ->
  nth i (closed_schedule T s) 0 = closed_form T s i.
Proof. unfold closed_schedule. apply nth_map_seq. Qed.

Lemma reversed_nth (T : Z) (s : R) (j : nat) :
  (j < Z.to_nat T)%nat ->
  nth j (rev (closed_schedule T s)) 0 =
  closed_form T s (Z.to_nat T - S j).
Proof.
  intros Hj. rewrite rev_nth by (rewrite raw_length; exact Hj).
  rewrite raw_length. apply raw_nth. lia.
Qed.

(** ** Evenly spaced points *)

Lemma evenly_spaced_nth (lo hi : R) (n : nat) (xs : list R) :
  (2 <= n)%nat -> evenly_spaced lo hi n xs ->
  forall i, (i < n)%nat -> nth i xs 0 = lo + INR i * ((hi - lo) / (INR n - 1)).
Proof.
  intros Hn (Hlen & Hlo & Hhi & d & Hd).
  assert (Hlin : forall i, (i < n)%nat -> nth i xs 0 = lo + INR i * d).
  { induction i as [|i IH]; intros Hi.
    - rewrite Hlo. simpl. ring.
    - specialize (Hd i Hi). rewrite S_INR.
      pose proof (IH ltac:(lia)) as IHi. lra. }
  assert (Hlast : INR (n - 1) = INR n - 1).
  { rewrite minus_INR by lia. reflexivity. }
  assert (Hpos : 0 < INR n - 1).
  { rewrite <- Hlast. apply lt_0_INR. lia. }
  assert (Hdval : d = (hi - lo) / (INR n - 1)).
  { pose proof (Hlin (n - 1)%nat ltac:(lia)) as E.
    rewrite Hhi, Hlast in E. rewrite E. field. lra. }
  intros i Hi. rewrite (Hlin i Hi), Hdval. reflexivity.
Qed.

Lemma grid_evenly_spaced (T : Z) :
  (0 < T)%Z ->
  evenly_spaced 0 (IZR (T + 1)) (Z.to_nat (T + 1))
    (map (grid_point T) (seq 0 (S (Z.to_nat T)))).
Proof.
  intros HT. pose proof (IZR_T_pos T HT) as Hpos.
  replace (Z.to_nat (T + 1)) with (S (Z.to_nat T)) by lia.
  assert (HTn : INR (Z.to_nat T) = IZR T).
  { rewrite INR_IZR_INZ. f_equal. lia. }
  repeat split.
  - now rewrite length_map, length_seq.
  - rewrite nth_map_seq by lia. unfold grid_point. simpl. ring.
  - rewrite nth_map_seq by lia. unfold grid_point.
    replace (S (Z.to_nat T) - 1)%nat with (Z.to_nat T) by lia.
    rewrite HTn, plus_IZR. field. lra.
  - exists ((IZR (T + 1) - 0) / (IZR (T + 1) - 1)).
    intros i Hi. rewrite !nth_map_seq by lia.
    unfold grid_point. rewrite S_INR. ring.
Qed.

Lemma evenly_spaced_grid (T : Z) (xs : list R) :
  (0 < T)%Z ->
  evenly_spaced 0 (IZR (T + 1)) (Z.to_nat (T + 1)) xs ->
  xs = map (grid_point T) (seq 0 (S (Z.to_nat T))).
Proof.
  intros HT Hes.
  assert (Hlen : length xs = S (Z.to_nat T)) by (destruct Hes as [-> _]; lia).
  rewrite <- Hlen. apply (list_eq_map_seq _ _ 0).
  intros i Hi.
  assert (H2 : (2 <= Z.to_nat (T + 1))%nat) by lia.
  assert (Hi' : (i < Z.to_nat (T + 1))%nat) by lia.
  rewrite (evenly_spaced_nth _ _ _ _ H2 Hes i Hi').
  unfold grid_point. do 4 f_equal.
  rewrite INR_IZR_INZ. f_equal. lia.
Qed.

(** The specification's normalise-and-truncate on the grid. *)
Lemma spec_pipeline_on_grid (T : Z) (s : R) :
  (0 < T)%Z ->
  let curve :=
    map (fun x => cos (((x / IZR (T + 1) + s) / (1 + s)) * (PI / 2)) ^ 2)
        (map (grid_point T) (seq 0 (S (Z.to_nat T)))) in
  firstn (Z.to_nat T) (map (fun v => v / nth 0 curve 0) curve) =
  closed_schedule T s.
Proof.
  intros HT curve. subst curve.
  rewrite !map_map, firstn_map, firstn_seq_le by lia.
  rewrite nth_map_seq by lia.
  apply map_ext. intros i.
  rewrite !grid_point_ratio by exact HT.
  now rewrite closed_form_angle.
Qed.

(** ** The schedule builder follows the specified algorithm *)

(** C1: for positive [timesteps] and positive [s], the sequences the
    specification's algorithm describes (timesteps + 1 evenly spaced points
    over [0, steps], the squared cosine of each, division by the first
    entry, the first timesteps entries kept) are exactly the one sequence
    [cosine_alphas_bar] returns. *)
Theorem cosine_alphas_bar_follows_algorithm (timesteps : Z) (s : R) :
  (0 < timesteps)%Z -> 0 < s ->
  forall out : list R,
    build_schedule_spec timesteps s out <-> cosine_alphas_bar timesteps s = Ok out.
Proof.
  intros HT Hs out. rewrite cosine_alphas_bar_closed by exact HT.
  unfold build_schedule_spec. split.
  - intros (xs & Hes & Hout).
    apply (evenly_spaced_grid _ _ HT) in Hes. subst xs.
    cbv zeta in Hout. rewrite (spec_pipeline_on_grid timesteps s HT) in Hout.
    now subst out.
  - intros E. injection E as <-.
    exists (map (grid_point timesteps) (seq 0 (S (Z.to_nat timesteps)))).
    split; [now apply grid_evenly_spaced|].
    cbv zeta. now rewrite (spec_pipeline_on_grid timesteps s HT).
Qed.

Lemma cosine_alphas_bar_follows_algorithm_witness :
  build_schedule_spec 2 default_s
    [closed_form 2 default_s 0; closed_form 2 default_s 1] <->
  cosine_alphas_bar 2 default_s =
    Ok [closed_form 2 default_s 0; closed_form 2 default_s 1].
Proof.
  apply (cosine_alphas_bar_follows_algorithm 2 default_s).
  - lia.
  - unfold default_s. lra.
Defined.

(** ** Shape, range and order of the schedule *)

Section Schedule.

Variables (T : Z) (s : R).
Hypothesis T_pos : (0 < T)%Z.
Hypothesis s_pos : 0 < s.

Local Abbreviation raw := (closed_schedule T s).

Lemma raw_in_unit_interval : Forall (fun v => 0 < v <= 1) raw.
Proof.
  unfold closed_schedule. apply Forall_forall. intros v Hv.
  apply in_map_iff in Hv as (i & <- & Hi).
  apply in_seq in Hi.
  split; [apply closed_form_pos | apply closed_form_le_1]; trivial; lia.
Qed.

Lemma raw_non_increasing (i j : nat) :
  (i <= j < length raw)%nat -> nth j raw 0 <= nth i raw 0.
Proof.
  rewrite raw_length. intros [Hij Hj].
  rewrite !raw_nth by lia.
  apply closed_form_antitone; trivial; lia.
Qed.

Lemma reversed_non_decreasing (i j : nat) :
  (i <= j < length (rev raw))%nat -> nth i (rev raw) 0 <= nth j (rev raw) 0.
Proof.
  rewrite length_rev, raw_length. intros [Hij Hj].
  rewrite !reversed_nth by lia.
  apply closed_form_antitone; trivial; lia.
Qed.

Lemma reversed_last : nth (Z.to_nat T - 1) (rev raw) 0 = 1.
Proof.
  rewrite reversed_nth by lia.
  replace (Z.to_nat T - S (Z.to_nat T - 1))%nat with 0%nat by lia.
  now apply closed_form_0.
Qed.

Lemma reversed_first_pos : 0 < nth 0 (rev raw) 0.
Proof.
  rewrite reversed_nth by lia.
  apply closed_form_pos; trivial; lia.
Qed.

End Schedule.

(** C4: for positive [timesteps] and positive [s] the raw schedule is
    non-increasing; the reversed schedule the training loop uses is
    non-decreasing, its entry 0 is its minimum, and its last entry, at index
    [timesteps - 1], is 1. *)
Theorem schedule_monotone (timesteps : Z) (s : R) :
  (0 < timesteps)%Z -> 0 < s ->
  exists raw reversed,
    cosine_alphas_bar timesteps s = Ok raw /\
    alphas timesteps s = Ok reversed /\
    reversed = rev raw /\
    length reversed = Z.to_nat timesteps /\
    (forall i j, (i <= j < length raw)%nat -> nth j raw 0 <= nth i raw 0) /\
    (forall i j, (i <= j < length reversed)%nat ->
                 nth i reversed 0 <= nth j reversed 0) /\
    (forall j, (j < length reversed)%nat -> nth 0 reversed 0 <= nth j reversed 0) /\
    nth (Z.to_nat timesteps - 1) reversed 0 = 1.
Proof.
  intros HT Hs.
  exists (closed_schedule timesteps s).
  exists (rev (closed_schedule timesteps s)).
  split; [now apply cosine_alphas_bar_closed|].
  split; [now apply alphas_closed|].
  split; [reflexivity|].
  split; [now rewrite length_rev, raw_length|].
  split; [intros i j; now apply raw_non_increasing|].
  split; [intros i j; now apply reversed_non_decreasing|].
  split; [|now apply reversed_last].
  intros j Hj. apply reversed_non_decreasing; trivial. lia.
Qed.

Lemma schedule_monotone_witness :
  exists raw reversed,
    cosine_alphas_bar 4 default_s = Ok raw /\
    alphas 4 default_s = Ok reversed /\
    reversed = rev raw /\
    length reversed = Z.to_nat 4 /\
    (forall i j, (i <= j < length raw)%nat -> nth j raw 0 <= nth i raw 0) /\
    (forall i j, (i <= j < length reversed)%nat ->
                 nth i reversed 0 <= nth j reversed 0) /\
    (forall j, (j < length reversed)%nat -> nth 0 reversed 0 <= nth j reversed 0) /\
    nth (Z.to_nat 4 - 1) reversed 0 = 1.
Proof.
  apply (schedule_monotone 4 default_s).
  - lia.
  - unfold default_s. lra.
Defined.

(** C5: for positive [timesteps] and positive [s], [cosine_alphas_bar]
    returns exactly [timesteps] values, the first of them is 1, and each
    lies in (0, 1]; in the reversed schedule the last entry is 1 and entry 0
    is the minimum and is above 0.  At [timesteps = 1000], [s = 0.008] this
    is the concrete scenario of the specification. *)
Theorem schedule_length_and_range (timesteps : Z) (s : R) :
  (0 < timesteps)%Z -> 0 < s ->
  exists raw reversed,
    cosine_alphas_bar timesteps s = Ok raw /\
    alphas timesteps s = Ok reversed /\
    Z.of_nat (length raw) = timesteps /\
    nth 0 raw 0 = 1 /\
    Forall (fun v => 0 < v <= 1) raw /\
    nth (Z.to_nat (timesteps - 1)) reversed 0 = 1 /\
    (forall j, (Z.of_nat j < timesteps)%Z -> nth 0 reversed 0 <= nth j reversed 0) /\
    0 < nth 0 reversed 0.
Proof.
  intros HT Hs.
  exists (closed_schedule timesteps s).
  exists (rev (closed_schedule timesteps s)).
  split; [now apply cosine_alphas_bar_closed|].
  split; [now apply alphas_closed|].
  split; [rewrite raw_length; lia|].
  split; [rewrite raw_nth by lia; now apply closed_form_0|].
  split; [now apply raw_in_unit_interval|].
  split.
  { replace (Z.to_nat (timesteps - 1)) with (Z.to_nat timesteps - 1)%nat by lia.
    now apply reversed_last. }
  split; [|now apply reversed_first_pos].
  intros j Hj. apply reversed_non_decreasing; trivial.
  rewrite length_rev, raw_length. lia.
Qed.

(** The scenario [build_schedule(timesteps=1000, s=0.008)]. *)
Lemma schedule_1000_scenario :
  exists raw reversed,
    cosine_alphas_bar 1000 default_s = Ok raw /\
    alphas 1000 default_s = Ok reversed /\
    Z.of_nat (length raw) = 1000%Z /\
    nth 0 raw 0 = 1 /\
    Forall (fun v => 0 < v <= 1) raw /\
    nth 999 reversed 0 = 1 /\
    (forall j, (Z.of_nat j < 1000)%Z -> nth 0 reversed 0 <= nth j reversed 0) /\
    0 < nth 0 reversed 0.
Proof.
  apply (schedule_length_and_range 1000 default_s).
  - lia.
  - unfold default_s. lra.
Defined.

(** C10: for [T > 0], [s > 0] and [i] in [0, T), entry [i] of the raw
    schedule is cos^2(((i/T + s)/(1+s)) * (pi/2)) divided by
    cos^2((s/(1+s)) * (pi/2)), because the [T + 1] grid points of
    [linspace(0, T+1, T+1)] are [i * (T+1) / T], whose quotient by [steps] is
    [i / T]; the floor of the schedule is the entry at [T - 1], and it is
    above 0. *)
Theorem schedule_closed_form (T : Z) (s : R) :
  (0 < T)%Z -> 0 < s ->
  exists grid raw,
    Torch.linspace 0 (IZR (T + 1)) (T + 1) = Ok grid /\
    cosine_alphas_bar T s = Ok raw /\
    Z.of_nat (length grid) = (T + 1)%Z /\
    Z.of_nat (length raw) = T /\
    (forall i, (Z.of_nat i <= T)%Z ->
       nth i grid 0 = INR i * IZR (T + 1) / IZR T /\
       nth i grid 0 / IZR (T + 1) = INR i / IZR T) /\
    (forall i, (Z.of_nat i < T)%Z ->
       nth i raw 0 =
       cos (((INR i / IZR T + s) / (1 + s)) * (PI / 2)) ^ 2 /
       cos ((s / (1 + s)) * (PI / 2)) ^ 2) /\
    (forall i, (Z.of_nat i < T)%Z ->
       nth (Z.to_nat (T - 1)) raw 0 <= nth i raw 0) /\
    0 < nth (Z.to_nat (T - 1)) raw 0.
Proof.
  intros HT Hs. pose proof (IZR_T_pos T HT) as Hpos.
  exists (map (grid_point T) (seq 0 (S (Z.to_nat T)))).
  exists (closed_schedule T s).
  split; [apply linspace_grid; lia|].
  split; [now apply cosine_alphas_bar_closed|].
  split; [rewrite length_map, length_seq; lia|].
  split; [rewrite raw_length; lia|].
  split.
  { intros i Hi. rewrite nth_map_seq by lia. split.
    - unfold grid_point. rewrite plus_IZR. field. lra.
    - now apply grid_point_ratio. }
  split; [intros i Hi; rewrite raw_nth by lia; reflexivity|].
  split.
  - intros i Hi. apply raw_non_increasing; trivial.
    rewrite raw_length. lia.
  - rewrite raw_nth by lia. apply closed_form_pos; trivial. lia.
Qed.

Lemma schedule_closed_form_witness :
  exists grid raw,
    Torch.linspace 0 (IZR (3 + 1)) (3 + 1) = Ok grid /\
    cosine_alphas_bar 3 default_s = Ok raw /\
    Z.of_nat (length grid) = (3 + 1)%Z /\
    Z.of_nat (length raw) = 3%Z /\
    (forall i, (Z.of_nat i <= 3)%Z ->
       nth i grid 0 = INR i * IZR (3 + 1) / IZR 3 /\
       nth i grid 0 / IZR (3 + 1) = INR i / IZR 3) /\
    (forall i, (Z.of_nat i < 3)%Z ->
       nth i raw 0 =
       cos (((INR i / IZR 3 + default_s) / (1 + default_s)) * (PI / 2)) ^ 2 /
       cos ((default_s / (1 + default_s)) * (PI / 2)) ^ 2) /\
    (forall i, (Z.of_nat i < 3)%Z ->
       nth (Z.to_nat (3 - 1)) raw 0 <= nth i raw 0) /\
    0 < nth (Z.to_nat (3 - 1)) raw 0.
Proof.
  apply (schedule_closed_form 3 default_s).
  - lia.
  - unfold default_s. lra.
Defined.

(** ** Entrywise operations on batches *)

Lemma length_map2 {A B C : Type} (f : A -> B -> C) (l1 : list A) (l2 : list B) :
  length l1 = length l2 -> length (map2 f l1 l2) = length l1.
Proof.
  revert l2; induction l1 as [|a l1 IH]; intros [|b l2] H; simpl in *;
    try reflexivity; try discriminate.
  f_equal. apply IH. now injection H.
Qed.

Lemma nth_map2 {A B C : Type} (f : A -> B -> C) (l1 : list A) (l2 : list B)
    (i : nat) (da : A) (db : B) (dc : C) :
  length l1 = length l2 -> (i < length l1)%nat ->
  nth i (map2 f l1 l2) dc = f (nth i l1 da) (nth i l2 db).
Proof.
  revert l2 i; induction l1 as [|a l1 IH]; intros [|b l2] i H Hi; simpl in *;
    try lia; try discriminate.
  destruct i as [|i]; [reflexivity|].
  apply IH; [now injection H | lia].
Qed.

Lemma nth_map_lt {A B : Type} (f : A -> B) (l : list A) (i : nat) (da : A) (db : B) :
  (i < length l)%nat -> nth i (map f l) db = f (nth i l da).
Proof.
  intros Hi. rewrite (nth_indep _ db (f da)) by (now rewrite length_map).
  apply map_nth.
Qed.

(** A shape read through [nth]. *)
Lemma has_shape_nth (B C H W : nat) (t : batch) :
  has_shape B C H W t <->
  length t = B /\
  forall b, (b < B)%nat ->
    length (nth b t []) = C /\
    forall c, (c < C)%nat ->
      length (nth c (nth b t []) []) = H /\
      forall h, (h < H)%nat -> length (nth h (nth c (nth b t []) []) []) = W.
Proof.
  unfold has_shape. split.
  - intros [HB Ht]. split; [exact HB|].
    intros b Hb. rewrite <- HB in Hb.
    destruct (proj1 (Forall_nth _ _) Ht b [] Hb) as [HC Himg].
    split; [exact HC|]. intros c Hc. rewrite <- HC in Hc.
    destruct (proj1 (Forall_nth _ _) Himg c [] Hc) as [HH Hpl].
    split; [exact HH|]. intros h Hh. rewrite <- HH in Hh.
    exact (proj1 (Forall_nth _ _) Hpl h [] Hh).
  - intros [HB Ht]. split; [exact HB|].
    apply Forall_forall. intros img Himg.
    apply (In_nth _ _ []) in Himg as (b & Hb & <-).
    assert (Hb' : (b < B)%nat) by (rewrite <- HB; exact Hb).
    clear Hb; rename Hb' into Hb.
    destruct (Ht b Hb) as [HC Hrest].
    split; [exact HC|].
    apply Forall_forall. intros pl Hpl.
    apply (In_nth _ _ []) in Hpl as (c & Hc & <-).
    assert (Hc' : (c < C)%nat) by (rewrite <- HC; exact Hc).
    clear Hc; rename Hc' into Hc.
    destruct (Hrest c Hc) as [HH Hrows].
    split; [exact HH|].
    apply Forall_forall. intros row Hrow.
    apply (In_nth _ _ []) in Hrow as (h & Hh & <-).
    assert (Hh' : (h < H)%nat) by (rewrite <- HH; exact Hh).
    clear Hh; rename Hh' into Hh.
    exact (Hrows h Hh).
Qed.

(** Two batches of one shape with the same entries are the same batch. *)
Lemma batch_ext (B C H W : nat) (t1 t2 : batch) :
  has_shape B C H W t1 -> has_shape B C H W t2 ->
  (forall b c h w, (b < B)%nat -> (c < C)%nat -> (h < H)%nat -> (w < W)%nat ->
     entry t1 b c h w = entry t2 b c h w) ->
  t1 = t2.
Proof.
  intros [HB1 S1]%has_shape_nth [HB2 S2]%has_shape_nth Hent.
  apply (nth_ext _ _ [] []); [congruence|].
  intros b Hb. rewrite HB1 in Hb.
  destruct (S1 b Hb) as [HC1 S1c], (S2 b Hb) as [HC2 S2c].
  apply (nth_ext _ _ [] []); [congruence|].
  intros c Hc. rewrite HC1 in Hc.
  destruct (S1c c Hc) as [HH1 S1h], (S2c c Hc) as [HH2 S2h].
  apply (nth_ext _ _ [] []); [congruence|].
  intros h Hh. rewrite HH1 in Hh.
  pose proof (S1h h Hh) as HW1. pose proof (S2h h Hh) as HW2.
  apply (nth_ext _ _ 0 0); [congruence|].
  intros w Hw. rewrite HW1 in Hw.
  exact (Hent b c h w Hb Hc Hh Hw).
Qed.

Section Mixing.

Variables (B C H W : nat) (images random_sample : batch) (alpha_batch : list R).
Hypothesis images_shape : has_shape B C H W images.
Hypothesis noise_shape : has_shape B C H W random_sample.
Hypothesis alpha_length : length alpha_batch = B.

Lemma bmul_shape (w : list R) (t : batch) :
  length w = B -> has_shape B C H W t -> has_shape B C H W (bmul w t).
Proof.
  intros Hw [HB St]%has_shape_nth. apply has_shape_nth. unfold bmul.
  split; [rewrite length_map2; congruence|].
  intros b Hb. destruct (St b Hb) as [HC Sc].
  rewrite (nth_map2 _ _ _ _ 0 [] []) by congruence.
  split; [now rewrite length_map|].
  intros c Hc. destruct (Sc c Hc) as [HH Sh].
  rewrite (nth_map_lt _ _ _ []) by congruence.
  split; [now rewrite length_map|].
  intros h Hh. rewrite (nth_map_lt _ _ _ []) by congruence.
  rewrite length_map. now apply Sh.
Qed.

Lemma bmul_entry (w : list R) (t : batch) (b c h x : nat) :
  length w = B -> has_shape B C H W t ->
  (b < B)%nat -> (c < C)%nat -> (h < H)%nat -> (x < W)%nat ->
  entry (bmul w t) b c h x = nth b w 0 * entry t b c h x.
Proof.
  intros Hw [HB St]%has_shape_nth Hb Hc Hh Hx. unfold entry, bmul.
  destruct (St b Hb) as [HC Sc]. destruct (Sc c Hc) as [HH Sh].
  pose proof (Sh h Hh) as HW.
  rewrite (nth_map2 _ _ _ _ 0 [] []) by congruence.
  rewrite (nth_map_lt _ _ _ []) by congruence.
  rewrite (nth_map_lt _ _ _ []) by congruence.
  rewrite (nth_map_lt _ _ _ 0) by congruence.
  reflexivity.
Qed.

Lemma tadd_shape (t1 t2 : batch) :
  has_shape B C H W t1 -> has_shape B C H W t2 ->
  has_shape B C H W (tadd t1 t2).
Proof.
  intros [HB1 S1]%has_shape_nth [HB2 S2]%has_shape_nth.
  apply has_shape_nth. unfold tadd.
  split; [rewrite length_map2; congruence|].
  intros b Hb. destruct (S1 b Hb) as [HC1 S1c], (S2 b Hb) as [HC2 S2c].
  rewrite (nth_map2 _ _ _ _ [] [] []) by congruence.
  split; [rewrite length_map2; congruence|].
  intros c Hc. destruct (S1c c Hc) as [HH1 S1h], (S2c c Hc) as [HH2 S2h].
  rewrite (nth_map2 _ _ _ _ [] [] []) by congruence.
  split; [rewrite length_map2; congruence|].
  intros h Hh. pose proof (S1h h Hh). pose proof (S2h h Hh).
  rewrite (nth_map2 _ _ _ _ [] [] []) by congruence.
  rewrite length_map2; congruence.
Qed.

Lemma tadd_entry (t1 t2 : batch) (b c h x : nat) :
  has_shape B C H W t1 -> has_shape B C H W t2 ->
  (b < B)%nat -> (c < C)%nat -> (h < H)%nat -> (x < W)%nat ->
  entry (tadd t1 t2) b c h x = entry t1 b c h x + entry t2 b c h x.
Proof.
  intros [HB1 S1]%has_shape_nth [HB2 S2]%has_shape_nth Hb Hc Hh Hx.
  unfold entry, tadd.
  destruct (S1 b Hb) as [HC1 S1c], (S2 b Hb) as [HC2 S2c].
  destruct (S1c c Hc) as [HH1 S1h], (S2c c Hc) as [HH2 S2h].
  pose proof (S1h h Hh). pose proof (S2h h Hh).
  rewrite (nth_map2 _ _ _ _ [] [] []) by congruence.
  rewrite (nth_map2 _ _ _ _ [] [] []) by congruence.
  rewrite (nth_map2 _ _ _ _ [] [] []) by congruence.
  rewrite (nth_map2 _ _ _ _ 0 0 0) by congruence.
  reflexivity.
Qed.

Lemma noise_input_shape :
  has_shape B C H W (noise_input alpha_batch images random_sample).
Proof.
  unfold noise_input.
  apply tadd_shape; apply bmul_shape; trivial; now rewrite length_map.
Qed.

Lemma noise_input_entry (b c h x : nat) :
  (b < B)%nat -> (c < C)%nat -> (h < H)%nat -> (x < W)%nat ->
  entry (noise_input alpha_batch images random_sample) b c h x =
  sqrt (nth b alpha_batch 0) * entry images b c h x +
  sqrt (1 - nth b alpha_batch 0) * entry random_sample b c h x.
Proof.
  intros Hb Hc Hh Hx. unfold noise_input.
  rewrite tadd_entry; trivial;
    try (apply bmul_shape; trivial; now rewrite length_map).
  rewrite !bmul_entry; trivial; try now rewrite length_map.
  rewrite (nth_map_lt signal_weight _ _ 0) by congruence.
  rewrite (nth_map_lt noise_weight _ _ 0) by congruence.
  reflexivity.
Qed.

End Mixing.

Lemma full_shape (B C H W : nat) (v : R) : has_shape B C H W (full B C H W v).
Proof.
  unfold has_shape, full. split; [apply repeat_length|].
  apply Forall_forall. intros img ->%repeat_spec.
  split; [apply repeat_length|].
  apply Forall_forall. intros pl ->%repeat_spec.
  split; [apply repeat_length|].
  apply Forall_forall. intros row ->%repeat_spec.
  apply repeat_length.
Qed.

Lemma full_entry (B C H W : nat) (v : R) (b c h w : nat) :
  (b < B)%nat -> (c < C)%nat -> (h < H)%nat -> (w < W)%nat ->
  entry (full B C H W v) b c h w = v.
Proof.
  intros Hb Hc Hh Hw. unfold entry, full.
  now rewrite !nth_repeat_lt.
Qed.

(** ** Looking indices up in the schedule *)

Lemma getitem_cases {A : Type} (t : list A) (i : Z) :
  (exists v, Torch.getitem t i = Ok v) \/ Torch.getitem t i = Raise IndexError.
Proof.
  unfold Torch.getitem.
  destruct (_ && _)%bool; [|now right].
  destruct (nth_error _ _) as [v|]; [left; now exists v | now right].
Qed.

Lemma index_in_range {A : Type} (t : list A) (idx : list Z) (d : A) :
  Forall (fun i => (0 <= i < Z.of_nat (length t))%Z) idx ->
  Torch.index t idx = Ok (map (fun i => nth (Z.to_nat i) t d) idx).
Proof.
  unfold Torch.index. induction 1 as [|i idx Hi _ IH]; [reflexivity|].
  cbn [mapM map]. rewrite (getitem_nonneg t i d Hi). cbn [bind].
  rewrite IH. reflexivity.
Qed.

Lemma index_out_of_range {A : Type} (t : list A) (idx : list Z) (i : Z) :
  In i idx ->
  (i < - Z.of_nat (length t) \/ Z.of_nat (length t) <= i)%Z ->
  Torch.index t idx = Raise IndexError.
Proof.
  unfold Torch.index. intros Hin Hout.
  induction idx as [|j idx IH]; [destruct Hin|].
  cbn [mapM]. destruct Hin as [->|Hin].
  - now rewrite getitem_out_of_range.
  - destruct (getitem_cases t j) as [[v ->]| ->]; [|reflexivity].
    cbn [bind]. now rewrite (IH Hin).
Qed.

Lemma index_last {A : Type} (t : list A) (idx : list Z) (d : A) :
  t <> [] ->
  Forall (fun i => i = (-1)%Z) idx ->
  Torch.index t idx = Ok (map (fun _ => nth (length t - 1) t d) idx).
Proof.
  unfold Torch.index. intros Hne.
  assert (Hlen : (0 < length t)%nat) by (destruct t; [congruence | simpl; lia]).
  induction 1 as [|i idx -> _ IH]; [reflexivity|].
  cbn [mapM map]. rewrite (getitem_negative t (-1) d) by lia.
  cbn [bind]. rewrite IH.
  replace (Z.to_nat (-1 + Z.of_nat (length t))) with (length t - 1)%nat by lia.
  reflexivity.
Qed.

(** ** The corruption step *)

(** C2: for a positive [timesteps] and [s], a batch of clean samples, noise
    of the same shape and in-range timestep indices, the corruption step
    returns a batch of that shape whose every entry is
    [sqrt a * x + sqrt (1 - a) * noise], [a] being the entry of the
    reversed schedule at the sample's index; with [x] all zeros and noise
    all ones every entry is [sqrt (1 - a)]. *)
Theorem corrupt_mixes (timesteps : Z) (s : R) (B C H W : nat)
    (images random_sample : batch) (rand_index : list Z) :
  (0 < timesteps)%Z -> 0 < s ->
  has_shape B C H W images ->
  has_shape B C H W random_sample ->
  length rand_index = B ->
  Forall (fun t => (0 <= t < timesteps)%Z) rand_index ->
  exists reversed noisy,
    alphas timesteps s = Ok reversed /\
    corrupt reversed rand_index images random_sample = Ok noisy /\
    has_shape B C H W noisy /\
    (forall b c h w, (b < B)%nat -> (c < C)%nat -> (h < H)%nat -> (w < W)%nat ->
       let a := nth (Z.to_nat (nth b rand_index 0%Z)) reversed 0 in
       entry noisy b c h w =
       sqrt a * entry images b c h w + sqrt (1 - a) * entry random_sample b c h w) /\
    (images = zeros B C H W -> random_sample = ones B C H W ->
     forall b c h w, (b < B)%nat -> (c < C)%nat -> (h < H)%nat -> (w < W)%nat ->
       let a := nth (Z.to_nat (nth b rand_index 0%Z)) reversed 0 in
       entry noisy b c h w = sqrt (1 - a)).
Proof.
  intros HT Hs Himg Hnoise Hlen Hidx.
  set (reversed := rev (closed_schedule timesteps s)).
  set (alpha_batch := map (fun i => nth (Z.to_nat i) reversed 0) rand_index).
  assert (Hrl : length reversed = Z.to_nat timesteps)
    by (unfold reversed; now rewrite length_rev, raw_length).
  assert (Hal : length alpha_batch = B)
    by (unfold alpha_batch; now rewrite length_map).
  assert (Hent : forall b c h w,
    (b < B)%nat -> (c < C)%nat -> (h < H)%nat -> (w < W)%nat ->
    entry (noise_input alpha_batch images random_sample) b c h w =
    sqrt (nth (Z.to_nat (nth b rand_index 0%Z)) reversed 0) * entry images b c h w +
    sqrt (1 - nth (Z.to_nat (nth b rand_index 0%Z)) reversed 0) *
      entry random_sample b c h w).
  { intros b c h w Hb Hc Hh Hw.
    rewrite (noise_input_entry B C H W) by assumption.
    unfold alpha_batch.
    rewrite (nth_map_lt _ _ _ 0%Z) by lia. reflexivity. }
  exists reversed, (noise_input alpha_batch images random_sample).
  split; [now apply alphas_closed|].
  split.
  { unfold corrupt. rewrite (index_in_range _ _ 0).
    - reflexivity.
    - eapply Forall_impl; [|exact Hidx]. cbv beta. intros t Ht. lia. }
  split; [now apply noise_input_shape|].
  split; [exact Hent|].
  intros Hz Ho b c h w Hb Hc Hh Hw. cbv zeta.
  rewrite Hent by assumption. rewrite Hz, Ho. unfold zeros, ones.
  rewrite !full_entry by assumption. ring.
Qed.

(** The scenario [corrupt(x=zeros(1,1,4,4), t=500, schedule)] with noise
    fixed to all ones. *)
Lemma corrupt_zeros_ones_scenario :
  exists reversed noisy,
    alphas 1000 default_s = Ok reversed /\
    corrupt reversed [500%Z] (zeros 1 1 4 4) (ones 1 1 4 4) = Ok noisy /\
    has_shape 1 1 4 4 noisy /\
    forall h w, (h < 4)%nat -> (w < 4)%nat ->
      entry noisy 0 0 h w = sqrt (1 - nth 500 reversed 0).
Proof.
  destruct (corrupt_mixes 1000 default_s 1 1 4 4 (zeros 1 1 4 4) (ones 1 1 4 4) [500%Z])
    as (reversed & noisy & Ha & Hc & Hs & _ & Hz).
  - lia.
  - unfold default_s. lra.
  - apply full_shape.
  - apply full_shape.
  - reflexivity.
  - constructor; [lia | constructor].
  - exists reversed, noisy.
    split; [exact Ha|]. split; [exact Hc|]. split; [exact Hs|].
    intros h w Hh Hw.
    apply (Hz eq_refl eq_refl 0%nat 0%nat h w); lia.
Defined.

(** ** The cleanest entry: corruption is the identity *)

Lemma noise_input_identity (B C H W : nat) (images random_sample : batch)
    (alpha_batch : list R) :
  has_shape B C H W images ->
  has_shape B C H W random_sample ->
  length alpha_batch = B ->
  Forall (fun a => a = 1) alpha_batch ->
  noise_input alpha_batch images random_sample = images.
Proof.
  intros Himg Hnoise Hlen Hone.
  apply (batch_ext B C H W); trivial.
  - now apply noise_input_shape.
  - intros b c h w Hb Hc Hh Hw.
    rewrite (noise_input_entry B C H W) by assumption.
    assert (Ha : nth b alpha_batch 0 = 1).
    { apply (proj1 (Forall_nth _ _) Hone). lia. }
    rewrite Ha, Rminus_diag, sqrt_1, sqrt_0. ring.
Qed.

Lemma reversed_getitem_last (T : Z) (s : R) :
  (0 < T)%Z -> 0 < s ->
  Torch.getitem (rev (closed_schedule T s)) (T - 1) = Ok 1.
Proof.
  intros HT Hs.
  rewrite (getitem_nonneg _ _ 0) by (rewrite length_rev, raw_length; lia).
  replace (Z.to_nat (T - 1)) with (Z.to_nat T - 1)%nat by lia.
  now rewrite reversed_last.
Qed.

(** C6: when every sample's timestep index selects the cleanest entry of
    the reversed schedule, index [timesteps - 1] where the retained fraction
    is 1, the corruption step returns the clean batch itself, whatever the
    noise. *)
Theorem corrupt_identity_at_cleanest (timesteps : Z) (s : R) (B C H W : nat)
    (images random_sample : batch) (rand_index : list Z) :
  (0 < timesteps)%Z -> 0 < s ->
  has_shape B C H W images ->
  has_shape B C H W random_sample ->
  length rand_index = B ->
  Forall (fun t => t = (timesteps - 1)%Z) rand_index ->
  exists reversed,
    alphas timesteps s = Ok reversed /\
    Torch.getitem reversed (timesteps - 1) = Ok 1 /\
    corrupt reversed rand_index images random_sample = Ok images.
Proof.
  intros HT Hs Himg Hnoise Hlen Hidx.
  exists (rev (closed_schedule timesteps s)).
  split; [now apply alphas_closed|].
  split; [now apply reversed_getitem_last|].
  unfold corrupt. rewrite (index_in_range _ _ 0).
  - cbn [bind]. f_equal.
    apply (noise_input_identity B C H W); trivial.
    + now rewrite length_map.
    + apply Forall_map. eapply Forall_impl; [|exact Hidx].
      cbv beta. intros t ->.
      replace (Z.to_nat (timesteps - 1)) with (Z.to_nat timesteps - 1)%nat by lia.
      now apply reversed_last.
  - eapply Forall_impl; [|exact Hidx]. cbv beta. intros t ->.
    rewrite length_rev, raw_length. lia.
Qed.

Lemma corrupt_identity_at_cleanest_witness :
  exists reversed,
    alphas 1000 default_s = Ok reversed /\
    Torch.getitem reversed (1000 - 1) = Ok 1 /\
    corrupt reversed [999%Z] [[[[0.25; -1]; [3; 0.5]]]] [[[[1; 2]; [-3; 4]]]] =
    Ok [[[[0.25; -1]; [3; 0.5]]]].
Proof.
  apply (corrupt_identity_at_cleanest 1000 default_s 1 1 2 2).
  - lia.
  - unfold default_s. lra.
  - unfold has_shape. repeat constructor.
  - unfold has_shape. repeat constructor.
  - reflexivity.
  - constructor; [reflexivity | constructor].
Defined.

(** ** The mixing weights *)

(** C7: for a schedule entry [a] in (0, 1] the squares of the two mixing
    weights of the corruption step, [sqrt a] and [sqrt (1 - a)], add up to
    [a + (1 - a)], which is 1. *)
Theorem mixing_weights_squares_sum (a : R) :
  0 < a <= 1 ->
  signal_weight a ^ 2 + noise_weight a ^ 2 = a + (1 - a) /\
  signal_weight a ^ 2 + noise_weight a ^ 2 = 1.
Proof.
  intros [Ha0 Ha1]. unfold signal_weight, noise_weight.
  assert (E1 : sqrt a ^ 2 = a) by (simpl; rewrite Rmult_1_r; apply sqrt_sqrt; lra).
  assert (E2 : sqrt (1 - a) ^ 2 = 1 - a)
    by (simpl; rewrite Rmult_1_r; apply sqrt_sqrt; lra).
  rewrite E1, E2. split; lra.
Qed.

Lemma mixing_weights_squares_sum_witness :
  signal_weight 0.25 ^ 2 + noise_weight 0.25 ^ 2 = 0.25 + (1 - 0.25) /\
  signal_weight 0.25 ^ 2 + noise_weight 0.25 ^ 2 = 1.
Proof.
  apply (mixing_weights_squares_sum 0.25). lra.
Defined.

(** The weights of every timestep of the schedule are of that kind. *)
Lemma schedule_weights_squares_sum (timesteps : Z) (s : R) (t : Z) :
  (0 < timesteps)%Z -> 0 < s -> (0 <= t < timesteps)%Z ->
  exists reversed a,
    alphas timesteps s = Ok reversed /\
    Torch.getitem reversed t = Ok a /\
    0 < a <= 1 /\
    signal_weight a ^ 2 + noise_weight a ^ 2 = 1.
Proof.
  intros HT Hs Ht.
  set (reversed := rev (closed_schedule timesteps s)).
  assert (Hlen : length reversed = Z.to_nat timesteps)
    by (unfold reversed; now rewrite length_rev, raw_length).
  assert (Ha : 0 < nth (Z.to_nat t) reversed 0 <= 1).
  { assert (Hall : Forall (fun v => 0 < v <= 1) reversed)
      by (unfold reversed; apply Forall_rev; now apply raw_in_unit_interval).
    apply (proj1 (Forall_nth _ _) Hall). lia. }
  exists reversed, (nth (Z.to_nat t) reversed 0).
  split; [now apply alphas_closed|].
  split; [apply getitem_nonneg; lia|].
  split; [exact Ha|].
  destruct Ha as [Ha0 Ha1]. unfold signal_weight, noise_weight.
  simpl. rewrite !Rmult_1_r, !sqrt_sqrt by lra. lra.
Qed.

(** ** Indices and step counts at the boundary *)

Lemma cosine_alphas_bar_zero (s : R) : cosine_alphas_bar 0 s = Ok [].
Proof. reflexivity. Qed.

(** C3 as stated fails: with [timesteps = 0] the builder returns the empty
    schedule, and the index [-1] is not refused, it selects the last entry
    of the reversed schedule. *)
Lemma boundary_rejection_counterexample :
  cosine_alphas_bar 0 default_s = Ok [] /\
  (forall e, cosine_alphas_bar 0 default_s <> Raise e) /\
  exists reversed,
    alphas 2 default_s = Ok reversed /\
    corrupt reversed [(-1)%Z] [[[[5]]]] [[[[7]]]] = Ok [[[[5]]]] /\
    (forall e, corrupt reversed [(-1)%Z] [[[[5]]]] [[[[7]]]] <> Raise e).
Proof.
  assert (H2 : (0 < 2)%Z) by lia.
  assert (Hs : 0 < default_s) by (unfold default_s; lra).
  split; [apply cosine_alphas_bar_zero|].
  split; [intros e; rewrite cosine_alphas_bar_zero; discriminate|].
  exists (rev (closed_schedule 2 default_s)).
  split; [now apply alphas_closed|].
  assert (E : corrupt (rev (closed_schedule 2 default_s)) [(-1)%Z] [[[[5]]]] [[[[7]]]]
              = Ok [[[[5]]]]).
  { unfold corrupt.
    rewrite (index_last _ _ 0).
    - cbn [bind map]. f_equal.
      apply (noise_input_identity 1 1 1 1).
      + unfold has_shape. repeat constructor.
      + unfold has_shape. repeat constructor.
      + reflexivity.
      + constructor; [|constructor].
        rewrite length_rev, raw_length.
        exact (reversed_last 2 default_s H2 Hs).
    - intros E. apply (f_equal (@length R)) in E.
      rewrite length_rev, raw_length in E. discriminate.
    - constructor; [reflexivity | constructor]. }
  split; [exact E|].
  intros e. rewrite E. discriminate.
Qed.

(** C3, amended: an index list holding [t = timesteps] makes the
    corruption step fail with [IndexError]; [t = -1] is accepted, counts
    from the end and selects the last entry of the reversed schedule, whose
    retained fraction is 1, so that the step returns the clean batch;
    [cosine_alphas_bar] with [timesteps = 0] returns the empty schedule. *)
Theorem boundary_indices (timesteps : Z) (s : R) (B C H W : nat)
    (images random_sample : batch) (rand_index : list Z) :
  (0 < timesteps)%Z -> 0 < s ->
  has_shape B C H W images ->
  has_shape B C H W random_sample ->
  length rand_index = B ->
  exists reversed,
    alphas timesteps s = Ok reversed /\
    (In timesteps rand_index ->
     corrupt reversed rand_index images random_sample = Raise IndexError) /\
    Torch.getitem reversed timesteps = Raise IndexError /\
    Torch.getitem reversed (-1) = Ok 1 /\
    Torch.getitem reversed (-1) = Torch.getitem reversed (timesteps - 1) /\
    (Forall (fun t => t = (-1)%Z) rand_index ->
     corrupt reversed rand_index images random_sample = Ok images) /\
    cosine_alphas_bar 0 s = Ok [].
Proof.
  intros HT Hs Himg Hnoise Hlen.
  set (reversed := rev (closed_schedule timesteps s)).
  assert (Hrl : length reversed = Z.to_nat timesteps)
    by (unfold reversed; now rewrite length_rev, raw_length).
  assert (Hlast : nth (length reversed - 1) reversed 0 = 1).
  { rewrite Hrl. now apply reversed_last. }
  assert (Hne : reversed <> []).
  { intros E. rewrite E in Hrl. simpl in Hrl. lia. }
  assert (Hneg : Torch.getitem reversed (-1) = Ok 1).
  { rewrite (getitem_negative _ _ 0) by lia.
    replace (Z.to_nat (-1 + Z.of_nat (length reversed)))
      with (length reversed - 1)%nat by lia.
    now rewrite Hlast. }
  exists reversed.
  split; [now apply alphas_closed|].
  split.
  { intros Hin. unfold corrupt.
    rewrite (index_out_of_range _ _ timesteps Hin) by lia. reflexivity. }
  split; [apply getitem_out_of_range; lia|].
  split; [exact Hneg|].
  split; [rewrite Hneg; symmetry; now apply reversed_getitem_last|].
  split; [|apply cosine_alphas_bar_zero].
  intros Hidx. unfold corrupt. rewrite (index_last _ _ 0) by assumption.
  cbn [bind]. f_equal.
  apply (noise_input_identity B C H W); trivial.
  - now rewrite length_map.
  - apply Forall_map. apply Forall_forall. intros t _. exact Hlast.
Qed.

Lemma boundary_indices_witness :
  exists reversed,
    alphas 1000 default_s = Ok reversed /\
    (In 1000%Z [1000%Z] ->
     corrupt reversed [1000%Z] [[[[5]]]] [[[[7]]]] = Raise IndexError) /\
    Torch.getitem reversed 1000 = Raise IndexError /\
    Torch.getitem reversed (-1) = Ok 1 /\
    Torch.getitem reversed (-1) = Torch.getitem reversed (1000 - 1) /\
    (Forall (fun t => t = (-1)%Z) [1000%Z] ->
     corrupt reversed [1000%Z] [[[[5]]]] [[[[7]]]] = Ok [[[[5]]]]) /\
    cosine_alphas_bar 0 default_s = Ok [].
Proof.
  apply (boundary_indices 1000 default_s 1 1 1 1).
  - lia.
  - unfold default_s. lra.
  - unfold has_shape. repeat constructor.
  - unfold has_shape. repeat constructor.
  - reflexivity.
Defined.

(** ** Determinism *)



(** The property tells functions of the script apart: the draw of the
    training step depends on the generator and moves it. *)
Lemma draw_action_moves_generator :
  let randint := fun (g : nat) (_ : Z) (n : nat) => (S g, repeat (Z.of_nat g) n) in
  let randn_like := fun (g : nat) (x : batch) => (S g, x) in
  fst (draw_action randint randn_like 1000 [[[[0]]]] 0%nat) <>
  fst (draw_action randint randn_like 1000 [[[[0]]]] 1%nat) /\
  snd (draw_action randint randn_like 1000 [[[[0]]]] 0%nat) <> 0%nat.
Proof.
  cbv zeta. unfold draw_action. cbn. split; discriminate.
Qed.

(** ** Epochs below the resume epoch *)

Lemma firstn_seq_min (a k n : nat) :
  firstn k (seq a n) = seq a (Nat.min k n).
Proof.
  revert a n; induction k as [|k IH]; intros a [|n]; simpl; try reflexivity.
  f_equal. apply IH.
Qed.

Lemma foldM_app {A S : Type} (f : S -> A -> result S) (l1 l2 : list A) (st : S) :
  foldM f (l1 ++ l2) st = (st' <- foldM f l1 st ;; foldM f l2 st').
Proof.
  revert st; induction l1 as [|a l1 IH]; intros st; [reflexivity|].
  simpl. destruct (f st a) as [st1|e]; simpl; [apply IH | reflexivity].
Qed.

Section SkippedEpochs.

Variables Net Opt LrSched Rng Labels : Type.
Variable randint : Rng -> Z -> nat -> Rng * list Z.
Variable randn_like : Rng -> batch -> Rng * batch.
Variable fit : Net -> bool -> Opt -> batch -> list Z -> Labels -> batch -> Net * Opt * R.
Variable evaluate : Net -> bool -> batch -> list Z -> Labels -> batch -> R.
Variable lr_step : LrSched -> Opt -> LrSched * Opt.
Variables train_dataloader test_dataloader : DataLoader Rng Labels.
Variable timesteps : Z.
Variable alphas_ : list R.

Local Abbreviation iteration :=
  (epoch_iteration randint randn_like fit evaluate lr_step
                   train_dataloader test_dataloader timesteps alphas_).
Local Abbreviation loop :=
  (training_loop randint randn_like fit evaluate lr_step
                 train_dataloader test_dataloader timesteps alphas_).
Local Abbreviation State := (state Net Opt LrSched Rng).

Lemma skip_iteration (resume_epoch epoch : Z) (st : State) :
  (epoch < resume_epoch)%Z ->
  iteration resume_epoch st epoch = Ok (print (SkippingEpoch epoch) st).
Proof.
  intros Hlt. unfold epoch_iteration.
  destruct (Z.geb_spec epoch resume_epoch) as [Hge|_]; [lia | reflexivity].
Qed.

Lemma same_but_stdout_refl (st : State) : same_but_stdout st st.
Proof. unfold same_but_stdout. repeat split. Qed.

Lemma same_but_stdout_print (o : output) (st st' : State) :
  same_but_stdout (print o st) st' -> same_but_stdout st st'.
Proof. unfold same_but_stdout. simpl. trivial. Qed.

Lemma skip_fold (resume_epoch : Z) (epochs : list Z) :
  Forall (fun epoch => (epoch < resume_epoch)%Z) epochs ->
  forall st : State,
  exists st',
    foldM (iteration resume_epoch) epochs st = Ok st' /\
    same_but_stdout st st' /\
    stdout st' = stdout st ++ map SkippingEpoch epochs.
Proof.
  induction 1 as [|epoch epochs Hlt _ IH]; intros st.
  - exists st. split; [reflexivity|]. split; [apply same_but_stdout_refl|].
    simpl. now rewrite app_nil_r.
  - destruct (IH (print (SkippingEpoch epoch) st)) as (st' & Hrun & Hsame & Hout).
    exists st'. cbn [foldM]. rewrite (skip_iteration _ _ _ Hlt). cbn [bind].
    split; [exact Hrun|]. split; [now apply (same_but_stdout_print (SkippingEpoch epoch))|].
    rewrite Hout. simpl. now rewrite <- app_assoc.
Qed.

Lemma trange_below (train_epoch resume_epoch epoch : Z) :
  In epoch (firstn (Z.to_nat resume_epoch) (trange train_epoch)) <->
  In epoch (trange train_epoch) /\ (epoch < resume_epoch)%Z.
Proof.
  unfold trange. rewrite firstn_map, firstn_seq_min, !in_map_iff. split.
  - intros (i & <- & Hi%in_seq). split; [|lia].
    exists i. split; [reflexivity|]. apply in_seq. lia.
  - intros [(i & <- & Hi%in_seq) Hlt].
    exists i. split; [reflexivity|]. apply in_seq. lia.
Qed.

Lemma trange_from (train_epoch resume_epoch epoch : Z) :
  In epoch (skipn (Z.to_nat resume_epoch) (trange train_epoch)) <->
  In epoch (trange train_epoch) /\ (resume_epoch <= epoch)%Z.
Proof.
  unfold trange. rewrite skipn_map, skipn_seq, !in_map_iff. split.
  - intros (i & <- & Hi%in_seq). split; [|lia].
    exists i. split; [reflexivity|]. apply in_seq. lia.
  - intros [(i & <- & Hi%in_seq) Hle].
    exists i. split; [reflexivity|]. apply in_seq. lia.
Qed.

(** C9: the loop visits every epoch index of [trange train_epoch]; the
    indices strictly below [resume_epoch] come first, and each of their
    iterations only prints its "Skipping epoch" line: no training step,
    no validation pass, no checkpoint write, so that the network, the
    optimizer, the loss log and all the rest of the state but the printed
    lines are as before when the first resumed epoch starts. *)
Theorem skipped_epochs_change_nothing (train_epoch resume_epoch : Z) (st : State) :
  let skipped := firstn (Z.to_nat resume_epoch) (trange train_epoch) in
  let resumed := skipn (Z.to_nat resume_epoch) (trange train_epoch) in
  trange train_epoch = skipped ++ resumed /\
  (forall epoch, In epoch skipped <->
                 In epoch (trange train_epoch) /\ (epoch < resume_epoch)%Z) /\
  (forall epoch, In epoch resumed <->
                 In epoch (trange train_epoch) /\ (resume_epoch <= epoch)%Z) /\
  (forall (st0 : State) epoch, (epoch < resume_epoch)%Z ->
     iteration resume_epoch st0 epoch = Ok (print (SkippingEpoch epoch) st0) /\
     same_but_stdout st0 (print (SkippingEpoch epoch) st0)) /\
  exists st_skip,
    foldM (iteration resume_epoch) skipped st = Ok st_skip /\
    same_but_stdout st st_skip /\
    stdout st_skip = stdout st ++ map SkippingEpoch skipped /\
    loop train_epoch resume_epoch st =
    foldM (iteration resume_epoch) resumed st_skip.
Proof.
  intros skipped resumed.
  assert (Hsplit : trange train_epoch = skipped ++ resumed)
    by (symmetry; apply firstn_skipn).
  split; [exact Hsplit|].
  split; [intros epoch; apply trange_below|].
  split; [intros epoch; apply trange_from|].
  split.
  { intros st0 epoch Hlt. split; [now apply skip_iteration|].
    apply (same_but_stdout_print (SkippingEpoch epoch)), same_but_stdout_refl. }
  destruct (skip_fold resume_epoch skipped) with (st := st)
    as (st_skip & Hrun & Hsame & Hout).
  { apply Forall_forall. intros epoch Hin. now apply trange_below in Hin. }
  exists st_skip. split; [exact Hrun|]. split; [exact Hsame|].
  split; [exact Hout|].
  unfold training_loop. rewrite Hsplit, foldM_app, Hrun. reflexivity.
Qed.

End SkippedEpochs.

(** A resumed run of five epochs from checkpoint epoch 3, on a toy
    framework: epochs 0, 1 and 2 print their line and change nothing. *)
Lemma skipped_epochs_change_nothing_witness :
  let st0 : state nat nat nat nat :=
    {| u_net := 7%nat; training := true; optimizer := 1%nat; lr_schedule := 0%nat;
       loss_log := []; mean_loss := 0; rng := 42%nat;
       checkpoint_file := None; stdout := [] |} in
  let iteration :=
    epoch_iteration (Labels := unit)
      (fun g _ n => (S g, repeat 0%Z n)) (fun g x => (S g, x))
      (fun net _ opt _ _ _ _ => (S net, S opt, 1)) (fun _ _ _ _ _ _ => 1)
      (fun l o => (S l, o))
      {| len := 1; iterate := fun g => (S g, []) |}
      {| len := 1; iterate := fun g => (S g, []) |}
      1000 [1] 3 in
  exists st_skip,
    foldM iteration [0%Z; 1%Z; 2%Z] st0 = Ok st_skip /\
    same_but_stdout st0 st_skip /\
    stdout st_skip = [SkippingEpoch 0; SkippingEpoch 1; SkippingEpoch 2].
Proof.
  intros st0 iteration.
  destruct (skipped_epochs_change_nothing nat nat nat nat unit
              (fun g _ n => (S g, repeat 0%Z n)) (fun g x => (S g, x))
              (fun net _ opt _ _ _ _ => (S net, S opt, 1)) (fun _ _ _ _ _ _ => 1)
              (fun l o => (S l, o))
              {| len := 1; iterate := fun g => (S g, []) |}
              {| len := 1; iterate := fun g => (S g, []) |}
              1000 [1] 5 3 st0)
    as (_ & _ & _ & _ & st_skip & Hrun & Hsame & Hout & _).
  exists st_skip. split; [exact Hrun|]. split; [exact Hsame | exact Hout].
Defined.

(** * Further properties of the schedule *)

(** ** Outcome by the sign of [timesteps] *)

(** X1: [cosine_alphas_bar] returns a schedule, of [timesteps] entries,
    exactly for [timesteps >= 0], whatever [s]; with [timesteps = -1] the
    grid is empty and [alphas_bar[0]] raises [IndexError]; below [-1] the
    grid has a negative number of points and [linspace] raises. *)
Theorem cosine_alphas_bar_outcome (timesteps : Z) (s : R) :
  ((0 <= timesteps)%Z /\
   exists raw, cosine_alphas_bar timesteps s = Ok raw /\
               Z.of_nat (length raw) = timesteps) \/
  (timesteps = (-1)%Z /\ cosine_alphas_bar timesteps s = Raise IndexError) \/
  ((timesteps < -1)%Z /\ cosine_alphas_bar timesteps s = Raise RuntimeError).
Proof.
  destruct (Z.lt_trichotomy timesteps (-1)) as [Hlt | [-> | Hgt]].
  - right; right. split; [exact Hlt|].
    unfold cosine_alphas_bar, Torch.linspace.
    destruct (Z.ltb_spec (timesteps + 1) 0) as [_|]; [reflexivity | lia].
  - right; left. split; reflexivity.
  - left. split; [lia|].
    destruct (Z.eq_dec timesteps 0) as [-> | Hne].
    + exists []. split; reflexivity.
    + exists (closed_schedule timesteps s).
      split; [apply cosine_alphas_bar_closed; lia|].
      rewrite raw_length. lia.
Qed.

(** ** Strict order *)

Lemma angle_strict (T : Z) (s : R) (i j : nat) :
  (0 < T)%Z -> 0 < s -> (i < j)%nat -> angle T s i < angle T s j.
Proof.
  intros HT Hs Hij. pose proof (IZR_T_pos T HT) as Hpos.
  pose proof PI_RGT_0 as Hpi.
  assert (Hlt : INR i < INR j) by now apply lt_INR.
  unfold angle.
  apply Rmult_lt_compat_r; [lra|].
  apply Rmult_lt_compat_r; [apply Rinv_0_lt_compat; lra|].
  apply Rplus_lt_compat_r.
  apply Rmult_lt_compat_r; [now apply Rinv_0_lt_compat | exact Hlt].
Qed.

Lemma closed_form_strict (T : Z) (s : R) (i j : nat) :
  (0 < T)%Z -> 0 < s -> (i < j)%nat -> (Z.of_nat j < T)%Z ->
  closed_form T s j < closed_form T s i.
Proof.
  intros HT Hs Hij Hj. rewrite !closed_form_angle.
  assert (Hi : (Z.of_nat i < T)%Z) by lia.
  pose proof (angle_bounds T s HT Hs i Hi) as [Hi0 Hi1].
  pose proof (angle_bounds T s HT Hs j Hj) as [Hj0 Hj1].
  pose proof PI_RGT_0 as Hpi.
  pose proof (cos_angle_pos T s HT Hs j Hj) as Hcj.
  assert (Hc : cos (angle T s j) < cos (angle T s i)).
  { apply cos_decreasing_1; try lra. now apply angle_strict. }
  assert (H0 : 0 < cos (angle T s 0)) by (apply cos_angle_pos; trivial; simpl; lia).
  apply Rmult_lt_compat_r.
  - apply Rinv_0_lt_compat. simpl. rewrite Rmult_1_r.
    now apply Rmult_lt_0_compat.
  - simpl. rewrite !Rmult_1_r. apply Rmult_le_0_lt_compat; lra.
Qed.

(** X2: for positive [timesteps] and [s] the raw schedule is strictly
    decreasing, so no two timesteps share a retained fraction. *)
Theorem schedule_strictly_decreasing (timesteps : Z) (s : R) :
  (0 < timesteps)%Z -> 0 < s ->
  exists raw,
    cosine_alphas_bar timesteps s = Ok raw /\
    (forall i j, (i < j < length raw)%nat -> nth j raw 0 < nth i raw 0) /\
    NoDup raw.
Proof.
  intros HT Hs. exists (closed_schedule timesteps s).
  split; [now apply cosine_alphas_bar_closed|].
  assert (Hstrict : forall i j, (i < j < length (closed_schedule timesteps s))%nat ->
            nth j (closed_schedule timesteps s) 0 < nth i (closed_schedule timesteps s) 0).
  { intros i j. rewrite raw_length. intros [Hij Hj].
    rewrite !raw_nth by lia. apply closed_form_strict; trivial; lia. }
  split; [exact Hstrict|].
  apply (NoDup_nth _ 0). intros i j Hi Hj E.
  destruct (Nat.lt_trichotomy i j) as [Hlt | [Heq | Hgt]]; [|exact Heq|].
  - pose proof (Hstrict i j (conj Hlt Hj)). lra.
  - pose proof (Hstrict j i (conj Hgt Hi)). lra.
Qed.

Lemma schedule_strictly_decreasing_witness :
  exists raw,
    cosine_alphas_bar 1000 default_s = Ok raw /\
    (forall i j, (i < j < length raw)%nat -> nth j raw 0 < nth i raw 0) /\
    NoDup raw.
Proof.
  apply (schedule_strictly_decreasing 1000 default_s).
  - lia.
  - unfold default_s. lra.
Defined.

(** ** The reversal *)



(** ** The weights along the schedule *)

(** X4: at every in-range timestep the signal weight is positive and at
    most 1 and the noise weight is at least 0 and below 1; the noise weight
    is 0, and the signal weight 1, at the cleanest index [timesteps - 1]
    and at no other. *)
Theorem weights_along_schedule (timesteps : Z) (s : R) (t : Z) :
  (0 < timesteps)%Z -> 0 < s -> (0 <= t < timesteps)%Z ->
  exists reversed a,
    alphas timesteps s = Ok reversed /\
    Torch.getitem reversed t = Ok a /\
    0 < signal_weight a <= 1 /\
    0 <= noise_weight a < 1 /\
    (noise_weight a = 0 <-> t = (timesteps - 1)%Z) /\
    (signal_weight a = 1 <-> t = (timesteps - 1)%Z).
Proof.
  intros HT Hs Ht.
  set (i := Z.to_nat (timesteps - 1 - t)).
  assert (Hi : (Z.of_nat i < timesteps)%Z) by (unfold i; lia).
  pose proof (closed_form_pos timesteps s HT Hs i Hi) as Hpos.
  pose proof (closed_form_le_1 timesteps s HT Hs i Hi) as Hle.
  assert (Hone : closed_form timesteps s i = 1 <-> t = (timesteps - 1)%Z).
  { split.
    - intros E. destruct (Nat.eq_dec i 0) as [Hz | Hnz]; [unfold i in Hz; lia|].
      pose proof (closed_form_strict timesteps s 0 i HT Hs ltac:(lia) Hi) as Hlt.
      rewrite (closed_form_0 timesteps s HT Hs) in Hlt. lra.
    - intros ->. replace i with 0%nat by (unfold i; lia).
      now apply closed_form_0. }
  exists (rev (closed_schedule timesteps s)), (closed_form timesteps s i).
  split; [now apply alphas_closed|].
  split.
  { rewrite (getitem_nonneg _ _ 0) by (rewrite length_rev, raw_length; lia).
    rewrite reversed_nth by lia. do 2 f_equal. unfold i. lia. }
  unfold signal_weight, noise_weight.
  set (a := closed_form timesteps s i) in *.
  assert (Hsa : sqrt a * sqrt a = a) by (apply sqrt_sqrt; lra).
  assert (Hsn : sqrt (1 - a) * sqrt (1 - a) = 1 - a) by (apply sqrt_sqrt; lra).
  pose proof (sqrt_pos a) as Hpa. pose proof (sqrt_pos (1 - a)) as Hpn.
  split; [split; nra|].
  split; [split; nra|].
  split.
  - rewrite <- Hone. split; intros E; [rewrite E in Hsn; lra|].
    rewrite E, Rminus_diag. apply sqrt_0.
  - rewrite <- Hone. split; intros E; [rewrite E in Hsa; lra|].
    rewrite E. apply sqrt_1.
Qed.

Lemma weights_along_schedule_witness :
  exists reversed a,
    alphas 1000 default_s = Ok reversed /\
    Torch.getitem reversed 0 = Ok a /\
    0 < signal_weight a <= 1 /\
    0 <= noise_weight a < 1 /\
    (noise_weight a = 0 <-> 0%Z = (1000 - 1)%Z) /\
    (signal_weight a = 1 <-> 0%Z = (1000 - 1)%Z).
Proof.
  apply (weights_along_schedule 1000 default_s 0).
  - lia.
  - unfold default_s. lra.
  - lia.
Defined.

(** * Further properties of the corruption step *)

(** ** How large a corrupted entry can be *)

Lemma mix_square_bound (a x n : R) :
  0 <= a <= 1 ->
  (sqrt a * x + sqrt (1 - a) * n) ^ 2 <= x ^ 2 + n ^ 2.
Proof.
  intros [Ha0 Ha1].
  assert (Hp : sqrt a * sqrt a = a) by (apply sqrt_sqrt; lra).
  assert (Hq : sqrt (1 - a) * sqrt (1 - a) = 1 - a) by (apply sqrt_sqrt; lra).
  set (p := sqrt a) in *. set (q := sqrt (1 - a)) in *.
  assert (Hid : (p * x + q * n) ^ 2 + (p * n - q * x) ^ 2 =
                (p * p + q * q) * (x ^ 2 + n ^ 2)) by ring.
  rewrite Hp, Hq in Hid.
  pose proof (pow2_ge_0 (p * n - q * x)). lra.
Qed.

(** X6: with the schedule of a positive [timesteps] and [s] and in-range
    indices, the square of every corrupted entry is at most the square of
    the clean entry plus the square of the noise entry: the mix never
    amplifies. *)
Theorem corrupt_entry_bound (timesteps : Z) (s : R) (B C H W : nat)
    (images random_sample : batch) (rand_index : list Z) :
  (0 < timesteps)%Z -> 0 < s ->
  has_shape B C H W images ->
  has_shape B C H W random_sample ->
  length rand_index = B ->
  Forall (fun t => (0 <= t < timesteps)%Z) rand_index ->
  exists reversed noisy,
    alphas timesteps s = Ok reversed /\
    corrupt reversed rand_index images random_sample = Ok noisy /\
    forall b c h w, (b < B)%nat -> (c < C)%nat -> (h < H)%nat -> (w < W)%nat ->
      entry noisy b c h w ^ 2 <=
      entry images b c h w ^ 2 + entry random_sample b c h w ^ 2.
Proof.
  intros HT Hs Himg Hnoise Hlen Hidx.
  set (reversed := rev (closed_schedule timesteps s)).
  set (alpha_batch := map (fun i => nth (Z.to_nat i) reversed 0) rand_index).
  assert (Hrl : length reversed = Z.to_nat timesteps)
    by (unfold reversed; now rewrite length_rev, raw_length).
  assert (Hunit : Forall (fun v => 0 < v <= 1) reversed)
    by (unfold reversed; apply Forall_rev; now apply raw_in_unit_interval).
  exists reversed, (noise_input alpha_batch images random_sample).
  split; [now apply alphas_closed|].
  split.
  { unfold corrupt. rewrite (index_in_range _ _ 0); [reflexivity|].
    eapply Forall_impl; [|exact Hidx]. cbv beta. intros t Ht. lia. }
  intros b c h w Hb Hc Hh Hw.
  rewrite (noise_input_entry B C H W) by
    (trivial; unfold alpha_batch; now rewrite length_map).
  apply mix_square_bound.
  unfold alpha_batch. rewrite (nth_map_lt _ _ _ 0%Z) by lia.
  assert (Ht : (0 <= nth b rand_index 0 < timesteps)%Z).
  { apply (proj1 (Forall_nth _ _) Hidx). lia. }
  assert (Ha : 0 < nth (Z.to_nat (nth b rand_index 0%Z)) reversed 0 <= 1).
  { apply (proj1 (Forall_nth _ _) Hunit). lia. }
  lra.
Qed.

Lemma corrupt_entry_bound_witness :
  exists reversed noisy,
    alphas 1000 default_s = Ok reversed /\
    corrupt reversed [17%Z] [[[[0.25; -1]; [3; 0.5]]]] [[[[1; 2]; [-3; 4]]]] = Ok noisy /\
    forall b c h w, (b < 1)%nat -> (c < 1)%nat -> (h < 2)%nat -> (w < 2)%nat ->
      entry noisy b c h w ^ 2 <=
      entry [[[[0.25; -1]; [3; 0.5]]]] b c h w ^ 2 +
      entry [[[[1; 2]; [-3; 4]]]] b c h w ^ 2.
Proof.
  apply (corrupt_entry_bound 1000 default_s 1 1 2 2).
  - lia.
  - unfold default_s. lra.
  - unfold has_shape. repeat constructor.
  - unfold has_shape. repeat constructor.
  - reflexivity.
  - constructor; [lia | constructor].
Defined.

(** * Further properties of the epoch loop *)

Lemma trange_last (n : Z) :
  (0 < n)%Z -> trange n = trange (n - 1) ++ [(n - 1)%Z].
Proof.
  intros Hn. unfold trange.
  replace (Z.to_nat n) with (S (Z.to_nat (n - 1))) by lia.
  rewrite seq_S, map_app. simpl. do 2 f_equal. lia.
Qed.

Lemma sum_losses_app (l1 l2 : list R) :
  sum_losses (l1 ++ l2) = sum_losses l1 + sum_losses l2.
Proof.
  unfold sum_losses. induction l1 as [|x l1 IH]; simpl; [lra|].
  rewrite IH. lra.
Qed.

Section LoopProperties.

Variables Net Opt LrSched Rng Labels : Type.
Variable randint : Rng -> Z -> nat -> Rng * list Z.
Variable randn_like : Rng -> batch -> Rng * batch.
Variable fit : Net -> bool -> Opt -> batch -> list Z -> Labels -> batch -> Net * Opt * R.
Variable evaluate : Net -> bool -> batch -> list Z -> Labels -> batch -> R.
Variable lr_step : LrSched -> Opt -> LrSched * Opt.
Variables train_dataloader test_dataloader : DataLoader Rng Labels.
Variable timesteps : Z.
Variable alphas_ : list R.

Local Abbreviation State := (state Net Opt LrSched Rng).
Local Abbreviation step := (train_batch randint randn_like fit timesteps alphas_).
Local Abbreviation vstep := (validate_batch randint randn_like evaluate timesteps alphas_).
Local Abbreviation epoch_body :=
  (run_epoch randint randn_like fit evaluate lr_step
             train_dataloader test_dataloader timesteps alphas_).
Local Abbreviation iteration :=
  (epoch_iteration randint randn_like fit evaluate lr_step
                   train_dataloader test_dataloader timesteps alphas_).
Local Abbreviation loop :=
  (training_loop randint randn_like fit evaluate lr_step
                 train_dataloader test_dataloader timesteps alphas_).

Local Abbreviation draws_in_range := (draws_below randint timesteps).
Local Abbreviation schedule_fits := (Z.of_nat (length alphas_) = timesteps).

(** *** One training step *)

Lemma train_batch_effects (st st' : State) (b : batch * Labels) :
  step st b = Ok st' ->
  exists loss,
    loss_log st' = loss_log st ++ [loss] /\
    mean_loss st' = mean_loss st + loss /\
    training st' = training st /\
    lr_schedule st' = lr_schedule st /\
    checkpoint_file st' = checkpoint_file st /\
    stdout st' = stdout st.
Proof.
  unfold train_batch. destruct b as [images labels].
  destruct (randint _ _ _) as [g1 rand_index].
  destruct (randn_like _ _) as [g2 random_sample].
  destruct (corrupt _ _ _ _) as [noisy|e]; cbn [bind]; [|discriminate].
  destruct (fit _ _ _ _ _ _ _) as [[net' opt'] loss].
  intros E. injection E as <-. exists loss. cbn. repeat split.
Qed.

Lemma train_pass_effects (batches : list (batch * Labels)) :
  forall st st' : State,
  foldM step batches st = Ok st' ->
  exists losses,
    length losses = length batches /\
    loss_log st' = loss_log st ++ losses /\
    mean_loss st' = mean_loss st + sum_losses losses /\
    training st' = training st /\
    lr_schedule st' = lr_schedule st /\
    checkpoint_file st' = checkpoint_file st /\
    stdout st' = stdout st.
Proof.
  induction batches as [|b batches IH]; intros st st' Hrun.
  - injection Hrun as <-. exists []. cbn. rewrite app_nil_r.
    repeat split. unfold sum_losses. simpl. lra.
  - cbn [foldM] in Hrun. destruct (step st b) as [st1|e] eqn:E1; [|discriminate].
    cbn [bind] in Hrun.
    destruct (train_batch_effects _ _ _ E1) as (loss & L1 & M1 & T1 & S1 & C1 & O1).
    destruct (IH _ _ Hrun) as (losses & Hlen & L2 & M2 & T2 & S2 & C2 & O2).
    exists (loss :: losses). cbn [length].
    split; [now rewrite Hlen|].
    split; [rewrite L2, L1, <- app_assoc; reflexivity|].
    split; [rewrite M2, M1; unfold sum_losses; simpl; lra|].
    repeat split; congruence.
Qed.

Lemma corrupt_drawn (g : Rng) (n : nat) (images random_sample : batch) :
  draws_in_range -> schedule_fits ->
  exists noisy,
    corrupt alphas_ (snd (randint g timesteps n)) images random_sample = Ok noisy.
Proof.
  intros Hdraw Hfit. unfold corrupt. rewrite (index_in_range _ _ 0).
  - eexists. reflexivity.
  - eapply Forall_impl; [|apply Hdraw]. cbv beta. intros t Ht.
    lia.
Qed.

Lemma train_batch_completes (st : State) (b : batch * Labels) :
  draws_in_range -> schedule_fits -> exists st', step st b = Ok st'.
Proof.
  intros Hdraw Hfit. unfold train_batch. destruct b as [images labels].
  pose proof (corrupt_drawn (rng st) (length images) images) as Hc.
  destruct (randint _ _ _) as [g1 rand_index]. cbn [snd] in Hc.
  destruct (randn_like _ _) as [g2 random_sample].
  destruct (Hc random_sample Hdraw Hfit) as [noisy ->]. cbn [bind].
  destruct (fit _ _ _ _ _ _ _) as [[net' opt'] loss].
  eexists. reflexivity.
Qed.

Lemma train_pass_completes (batches : list (batch * Labels)) :
  draws_in_range -> schedule_fits ->
  forall st : State, exists st', foldM step batches st = Ok st'.
Proof.
  intros Hdraw Hfit. induction batches as [|b batches IH]; intros st.
  - exists st. reflexivity.
  - destruct (train_batch_completes st b Hdraw Hfit) as [st1 E1].
    destruct (IH st1) as [st' E']. exists st'.
    cbn [foldM]. now rewrite E1.
Qed.

Lemma validate_pass_completes (net : Net) (mode : bool)
    (batches : list (batch * Labels)) :
  draws_in_range -> schedule_fits ->
  forall acc, exists r, foldM (vstep net mode) batches acc = Ok r.
Proof.
  intros Hdraw Hfit. induction batches as [|b batches IH]; intros acc.
  - exists acc. reflexivity.
  - assert (E1 : exists acc1, vstep net mode acc b = Ok acc1).
    { unfold validate_batch. destruct b as [images labels].
      pose proof (corrupt_drawn (fst acc) (length images) images) as Hc.
      destruct (randint _ _ _) as [g1 rand_index]. cbn [snd] in Hc.
      destruct (randn_like _ _) as [g2 random_sample].
      destruct (Hc random_sample Hdraw Hfit) as [noisy ->]. cbn [bind].
      eexists. reflexivity. }
    destruct E1 as [acc1 E1]. destruct (IH acc1) as [r E'].
    exists r. cbn [foldM]. now rewrite E1.
Qed.

(** *** One epoch that runs *)

Lemma run_epoch_effects (epoch : Z) (st st' : State) :
  epoch_body epoch st = Ok st' ->
  len train_dataloader <> 0%nat /\
  len test_dataloader <> 0%nat /\
  exists losses v,
    length losses = length (snd (iterate train_dataloader (rng st))) /\
    loss_log st' = loss_log st ++ losses /\
    mean_loss st' = sum_losses losses /\
    training st' = false /\
    checkpoint_file st' =
      Some {| ck_epoch := epoch; model_state_dict := u_net st';
              optimizer_state_dict := optimizer st' |} /\
    stdout st' = stdout st ++ epoch_lines (epoch, v).
Proof.
  unfold run_epoch.
  destruct (Nat.eqb_spec (len train_dataloader) 0) as [|Htrain]; [discriminate|].
  cbn [rng set_mean_loss print].
  destruct (iterate train_dataloader (rng st)) as [g batches].
  destruct (foldM _ batches _) as [st1|e] eqn:E1; cbn [bind]; [|discriminate].
  destruct (lr_step _ _) as [sched' opt'].
  destruct (iterate test_dataloader (rng st1)) as [g' vbatches].
  destruct (foldM _ vbatches _) as [r|e]; cbn [bind]; [|discriminate].
  destruct (Nat.eqb_spec (len test_dataloader) 0) as [|Htest]; [discriminate|].
  intros E. injection E as <-.
  destruct (train_pass_effects _ _ _ E1) as (losses & Hlen & L & M & _ & _ & _ & O).
  cbn in L, M, O.
  split; [exact Htrain|]. split; [exact Htest|].
  exists losses, (snd r / INR (len test_dataloader)). cbn.
  split; [exact Hlen|]. split; [exact L|].
  split; [rewrite M; lra|].
  split; [reflexivity|]. split; [reflexivity|].
  rewrite O, <- app_assoc. reflexivity.
Qed.

Lemma run_epoch_completes (epoch : Z) (st : State) :
  draws_in_range -> schedule_fits ->
  len train_dataloader <> 0%nat -> len test_dataloader <> 0%nat ->
  exists st', epoch_body epoch st = Ok st'.
Proof.
  intros Hdraw Hfit Htrain Htest. unfold run_epoch.
  destruct (Nat.eqb_spec (len train_dataloader) 0) as [|_]; [contradiction|].
  destruct (iterate train_dataloader _) as [g batches].
  destruct (train_pass_completes batches Hdraw Hfit
              (set_rng _ _ _ _ g (set_mean_loss _ _ _ _ 0 (print (EpochRunning epoch) st))))
    as [st1 ->].
  cbn [bind].
  destruct (lr_step _ _) as [sched' opt'].
  destruct (iterate test_dataloader _) as [g' vbatches].
  destruct (validate_pass_completes (u_net st1) false vbatches Hdraw Hfit (g', 0))
    as [r ->].
  cbn [bind].
  destruct (Nat.eqb_spec (len test_dataloader) 0) as [|_]; [contradiction|].
  eexists. reflexivity.
Qed.

(** *** Iterations *)

Lemma iteration_runs (resume_epoch epoch : Z) (st : State) :
  (resume_epoch <= epoch)%Z ->
  iteration resume_epoch st epoch = epoch_body epoch st.
Proof.
  intros Hle. unfold epoch_iteration.
  destruct (Z.geb_spec epoch resume_epoch) as [_|]; [reflexivity | lia].
Qed.

Lemma iteration_cases (resume_epoch epoch : Z) (st : State) :
  ((epoch < resume_epoch)%Z /\
   iteration resume_epoch st epoch = Ok (print (SkippingEpoch epoch) st)) \/
  ((resume_epoch <= epoch)%Z /\
   iteration resume_epoch st epoch = epoch_body epoch st).
Proof.
  unfold epoch_iteration.
  destruct (Z.geb_spec epoch resume_epoch); [right | left]; split; trivial; lia.
Qed.

Lemma resumed_effects (resume_epoch : Z) (epochs : list Z) :
  Forall (fun epoch => (resume_epoch <= epoch)%Z) epochs ->
  forall st st' : State,
  foldM (iteration resume_epoch) epochs st = Ok st' ->
  exists vs losses,
    length vs = length epochs /\
    stdout st' = stdout st ++ flat_map epoch_lines (combine epochs vs) /\
    loss_log st' = loss_log st ++ losses /\
    (yields_len train_dataloader ->
     length losses = (length epochs * len train_dataloader)%nat).
Proof.
  induction 1 as [|epoch epochs Hle _ IH]; intros st st' Hrun.
  - injection Hrun as <-. exists [], []. cbn. rewrite !app_nil_r.
    repeat split.
  - cbn [foldM] in Hrun. rewrite (iteration_runs _ _ _ Hle) in Hrun.
    destruct (epoch_body epoch st) as [st1|e] eqn:E1; [|discriminate].
    cbn [bind] in Hrun.
    destruct (run_epoch_effects _ _ _ E1)
      as (_ & _ & losses1 & v & Hlen1 & L1 & _ & _ & _ & O1).
    destruct (IH _ _ Hrun) as (vs & losses & Hlen & O & L & Hcount).
    exists (v :: vs), (losses1 ++ losses). cbn [length combine flat_map].
    split; [now rewrite Hlen|].
    split; [rewrite O, O1, <- app_assoc; reflexivity|].
    split; [rewrite L, L1, <- app_assoc; reflexivity|].
    intros Hy. rewrite length_app, (Hcount Hy), Hlen1, (Hy (rng st)). lia.
Qed.


Lemma loop_completes_on (resume_epoch : Z) (epochs : list Z) :
  draws_in_range -> schedule_fits ->
  len train_dataloader <> 0%nat -> len test_dataloader <> 0%nat ->
  forall st : State, exists st', foldM (iteration resume_epoch) epochs st = Ok st'.
Proof.
  intros Hdraw Hfit Htrain Htest.
  induction epochs as [|epoch epochs IH]; intros st.
  - exists st. reflexivity.
  - assert (E1 : exists st1, iteration resume_epoch st epoch = Ok st1).
    { destruct (iteration_cases resume_epoch epoch st) as [[_ ->] | [_ ->]].
      - eexists. reflexivity.
      - now apply run_epoch_completes. }
    destruct E1 as [st1 E1]. destruct (IH st1) as [st' E'].
    exists st'. cbn [foldM]. now rewrite E1.
Qed.

(** *** The loop *)

(** X7: when the generator draws timestep indices in range, the schedule
    has [timesteps] entries and both data loaders have at least one batch,
    the training loop completes for every [train_epoch], [resume_epoch] and
    starting state: no lookup in the schedule ever fails. *)
Theorem training_loop_completes (train_epoch resume_epoch : Z) (st : State) :
  draws_below randint timesteps ->
  Z.of_nat (length alphas_) = timesteps ->
  len train_dataloader <> 0%nat -> len test_dataloader <> 0%nat ->
  exists st', loop train_epoch resume_epoch st = Ok st'.
Proof.
  intros Hdraw Hfit Htrain Htest. unfold training_loop.
  now apply loop_completes_on.
Qed.

(** X9: an epoch that runs appends one loss per minibatch of its training
    pass to the loss log, leaving the earlier entries in place, and ends
    with [mean_loss] equal to the sum of the losses of that epoch alone. *)
Theorem run_epoch_loss_bookkeeping (epoch : Z) (st st' : State) :
  epoch_body epoch st = Ok st' ->
  exists losses,
    length losses = length (snd (iterate train_dataloader (rng st))) /\
    loss_log st' = loss_log st ++ losses /\
    mean_loss st' = sum_losses losses.
Proof.
  intros Hrun.
  destruct (run_epoch_effects _ _ _ Hrun) as (_ & _ & losses & v & Hlen & L & M & _).
  exists losses. repeat split; assumption.
Qed.

(** X10: when the loop completes and at least one epoch was due, the
    checkpoint file holds the last epoch index [train_epoch - 1] with the
    network and the optimizer of the final state, the network is left in
    eval mode, and a reload from that file resumes at [train_epoch - 1]
    with exactly that network and optimizer. *)
Theorem training_loop_checkpoint (train_epoch resume_epoch : Z) (st st' : State)
    (net : Net) (opt : Opt) :
  (0 < train_epoch)%Z -> (resume_epoch < train_epoch)%Z ->
  loop train_epoch resume_epoch st = Ok st' ->
  checkpoint_file st' =
    Some {| ck_epoch := (train_epoch - 1)%Z; model_state_dict := u_net st';
            optimizer_state_dict := optimizer st' |} /\
  training st' = false /\
  reload true (checkpoint_file st') net opt =
    Some ((train_epoch - 1)%Z, u_net st', optimizer st').
Proof.
  intros Hn Hr. unfold training_loop.
  rewrite (trange_last _ Hn), foldM_app.
  destruct (foldM _ (trange (train_epoch - 1)) st) as [st1|e]; [|discriminate].
  cbn [bind foldM]. rewrite iteration_runs by lia.
  destruct (epoch_body (train_epoch - 1) st1) as [st2|e] eqn:E; [|discriminate].
  cbn [bind]. intros H. injection H as <-.
  destruct (run_epoch_effects _ _ _ E) as (_ & _ & ? & ? & _ & _ & _ & Hmode & Hck & _).
  split; [exact Hck|]. split; [exact Hmode|].
  rewrite Hck. reflexivity.
Qed.

(** X11: what a completed loop has printed: first one "Skipping epoch"
    line per epoch index below [resume_epoch], in order, then for each
    other epoch index, in order and starting with [resume_epoch] itself
    when it is in range, the lines "Epoch runnin", "Validation Loss" and
    "Model saved". *)
Theorem training_loop_output (train_epoch resume_epoch : Z) (st st' : State) :
  loop train_epoch resume_epoch st = Ok st' ->
  let skipped := firstn (Z.to_nat resume_epoch) (trange train_epoch) in
  let resumed := skipn (Z.to_nat resume_epoch) (trange train_epoch) in
  exists vs,
    length vs = length resumed /\
    stdout st' =
    stdout st ++ map SkippingEpoch skipped ++
    flat_map epoch_lines (combine resumed vs).
Proof.
  intros Hrun skipped resumed. unfold training_loop in Hrun.
  rewrite <- (firstn_skipn (Z.to_nat resume_epoch) (trange train_epoch)) in Hrun.
  fold skipped resumed in Hrun. rewrite foldM_app in Hrun.
  destruct (skip_fold Net Opt LrSched Rng Labels randint randn_like fit evaluate
              lr_step train_dataloader test_dataloader timesteps alphas_
              resume_epoch skipped) with (st := st) as (st_skip & Hskip & _ & Hout).
  { apply Forall_forall. intros epoch Hin. now apply trange_below in Hin. }
  rewrite Hskip in Hrun. cbn [bind] in Hrun.
  destruct (resumed_effects resume_epoch resumed) with (st := st_skip) (st' := st')
    as (vs & _ & Hlen & O & _); [|exact Hrun|].
  { apply Forall_forall. intros epoch Hin. now apply trange_from in Hin. }
  exists vs. split; [exact Hlen|].
  rewrite O, Hout, <- app_assoc. reflexivity.
Qed.


(** X13: without [params.do_reload] the resume epoch is [-1] and the
    network and optimizer are the fresh ones, and the loop then skips
    nothing: every epoch index of [trange train_epoch] runs. *)
Theorem no_reload_runs_every_epoch (file : option (Checkpoint Net Opt))
    (net : Net) (opt : Opt) (train_epoch : Z) (st : State) :
  reload false file net opt = Some ((-1)%Z, net, opt) /\
  loop train_epoch (-1) st =
  foldM (fun st epoch => epoch_body epoch st) (trange train_epoch) st.
Proof.
  split; [reflexivity|]. unfold training_loop.
  assert (Hall : Forall (fun epoch => (-1 <= epoch)%Z) (trange train_epoch)).
  { apply Forall_forall. intros epoch Hin. unfold trange in Hin.
    apply in_map_iff in Hin as (i & <- & _). lia. }
  revert st. induction Hall as [|epoch epochs Hle _ IH]; intros st; [reflexivity|].
  cbn [foldM]. rewrite iteration_runs by exact Hle.
  destruct (epoch_body epoch st) as [st1|e]; cbn [bind]; [apply IH | reflexivity].
Qed.

(** X14: a completed loop only appends to the loss log; when every pass of
    the training loader yields [len] batches, the number of entries added
    is the number of epochs that ran times [len(train_dataloader)]. *)
Theorem training_loop_loss_log (train_epoch resume_epoch : Z) (st st' : State) :
  loop train_epoch resume_epoch st = Ok st' ->
  exists losses,
    loss_log st' = loss_log st ++ losses /\
    (yields_len train_dataloader ->
     length losses =
     (length (skipn (Z.to_nat resume_epoch) (trange train_epoch)) *
      len train_dataloader)%nat).
Proof.
  intros Hrun. unfold training_loop in Hrun.
  rewrite <- (firstn_skipn (Z.to_nat resume_epoch) (trange train_epoch)) in Hrun.
  rewrite foldM_app in Hrun.
  destruct (skip_fold Net Opt LrSched Rng Labels randint randn_like fit evaluate
              lr_step train_dataloader test_dataloader timesteps alphas_
              resume_epoch (firstn (Z.to_nat resume_epoch) (trange train_epoch)))
    with (st := st) as (st_skip & Hskip & Hsame & _).
  { apply Forall_forall. intros epoch Hin. now apply trange_below in Hin. }
  rewrite Hskip in Hrun. cbn [bind] in Hrun.
  destruct (resumed_effects resume_epoch
              (skipn (Z.to_nat resume_epoch) (trange train_epoch)))
    with (st := st_skip) (st' := st') as (vs & losses & _ & _ & L & Hcount);
    [|exact Hrun|].
  { apply Forall_forall. intros epoch Hin. now apply trange_from in Hin. }
  exists losses. split; [|exact Hcount].
  rewrite L. f_equal.
  now destruct Hsame as (_ & _ & _ & _ & Hlog & _).
Qed.

End LoopProperties.

(** *** The loop on a toy framework

    Two timesteps with schedule [[0.5; 1]], a generator that always draws
    index 0, a training loader of two one-pixel batches and a test loader
    of one, every loss equal to 1. *)

Lemma training_loop_completes_witness :
  let randint := fun (g : nat) (_ : Z) (n : nat) => (S g, repeat 0%Z n) in
  let randn_like := fun (g : nat) (x : batch) => (S g, x) in
  let fit := fun (net : nat) (_ : bool) (opt : nat) (_ : batch) (_ : list Z)
                 (_ : unit) (_ : batch) => (S net, S opt, 1) in
  let evaluate := fun (_ : nat) (_ : bool) (_ : batch) (_ : list Z)
                      (_ : unit) (_ : batch) => 1 in
  let lr_step := fun (l o : nat) => (S l, o) in
  let train := {| len := 2;
                  iterate := fun g : nat => (S g, [([[[[0.5]]]], tt); ([[[[1]]]], tt)]) |} in
  let test := {| len := 1; iterate := fun g : nat => (S g, [([[[[0]]]], tt)]) |} in
  let st0 : state nat nat nat nat :=
    {| u_net := 7%nat; training := true; optimizer := 1%nat; lr_schedule := 0%nat;
       loss_log := []; mean_loss := 0; rng := 42%nat;
       checkpoint_file := None; stdout := [] |} in
  exists st',
    training_loop randint randn_like fit evaluate lr_step train test 2 [0.5; 1]
                  3 1 st0 = Ok st'.
Proof.
  intros randint randn_like fit evaluate lr_step train test st0.
  apply (training_loop_completes nat nat nat nat unit randint randn_like fit
           evaluate lr_step train test 2 [0.5; 1] 3 1 st0).
  - intros g n. apply Forall_forall. intros t Ht.
    apply repeat_spec in Ht. lia.
  - reflexivity.
  - discriminate.
  - discriminate.
Defined.

Lemma run_epoch_loss_bookkeeping_witness :
  let randint := fun (g : nat) (_ : Z) (n : nat) => (S g, repeat 0%Z n) in
  let randn_like := fun (g : nat) (x : batch) => (S g, x) in
  let fit := fun (net : nat) (_ : bool) (opt : nat) (_ : batch) (_ : list Z)
                 (_ : unit) (_ : batch) => (S net, S opt, 1) in
  let evaluate := fun (_ : nat) (_ : bool) (_ : batch) (_ : list Z)
                      (_ : unit) (_ : batch) => 1 in
  let lr_step := fun (l o : nat) => (S l, o) in
  let train := {| len := 2;
                  iterate := fun g : nat => (S g, [([[[[0.5]]]], tt); ([[[[1]]]], tt)]) |} in
  let test := {| len := 1; iterate := fun g : nat => (S g, [([[[[0]]]], tt)]) |} in
  let st0 : state nat nat nat nat :=
    {| u_net := 7%nat; training := true; optimizer := 1%nat; lr_schedule := 0%nat;
       loss_log := [3]; mean_loss := 9; rng := 42%nat;
       checkpoint_file := None; stdout := [] |} in
  exists st' losses,
    run_epoch randint randn_like fit evaluate lr_step train test 2 [0.5; 1]
              4 st0 = Ok st' /\
    length losses = 2%nat /\
    loss_log st' = [3] ++ losses /\
    mean_loss st' = sum_losses losses.
Proof.
  intros randint randn_like fit evaluate lr_step train test st0.
  eexists.
  destruct (run_epoch_loss_bookkeeping nat nat nat nat unit randint randn_like fit
              evaluate lr_step train test 2 [0.5; 1] 4 st0 _ eq_refl)
    as (losses & Hlen & Hlog & Hmean).
  exists losses. split; [reflexivity|].
  split; [exact Hlen|]. split; [exact Hlog | exact Hmean].
Defined.

Lemma training_loop_checkpoint_witness :
  let randint := fun (g : nat) (_ : Z) (n : nat) => (S g, repeat 0%Z n) in
  let randn_like := fun (g : nat) (x : batch) => (S g, x) in
  let fit := fun (net : nat) (_ : bool) (opt : nat) (_ : batch) (_ : list Z)
                 (_ : unit) (_ : batch) => (S net, S opt, 1) in
  let evaluate := fun (_ : nat) (_ : bool) (_ : batch) (_ : list Z)
                      (_ : unit) (_ : batch) => 1 in
  let lr_step := fun (l o : nat) => (S l, o) in
  let train := {| len := 1; iterate := fun g : nat => (S g, [([[[[0.5]]]], tt)]) |} in
  let test := {| len := 1; iterate := fun g : nat => (S g, [([[[[0]]]], tt)]) |} in
  let st0 : state nat nat nat nat :=
    {| u_net := 7%nat; training := true; optimizer := 1%nat; lr_schedule := 0%nat;
       loss_log := []; mean_loss := 0; rng := 42%nat;
       checkpoint_file := None; stdout := [] |} in
  let st1 : state nat nat nat nat :=
    {| u_net := 8%nat; training := false; optimizer := 2%nat; lr_schedule := 1%nat;
       loss_log := [] ++ [1]; mean_loss := 0 + 1; rng := 48%nat;
       checkpoint_file :=
         Some {| ck_epoch := 0%Z; model_state_dict := 8%nat;
                 optimizer_state_dict := 2%nat |};
       stdout := ([] ++ [EpochRunning 0]) ++
                 [ValidationLoss ((0 + 1) / INR 1); ModelSaved] |} in
  training_loop randint randn_like fit evaluate lr_step train test 2 [0.5; 1]
                1 0 st0 = Ok st1 /\
  checkpoint_file st1 =
    Some {| ck_epoch := (1 - 1)%Z; model_state_dict := u_net st1;
            optimizer_state_dict := optimizer st1 |} /\
  training st1 = false /\
  reload true (checkpoint_file st1) 0%nat 0%nat =
    Some ((1 - 1)%Z, u_net st1, optimizer st1).
Proof.
  intros randint randn_like fit evaluate lr_step train test st0 st1.
  assert (Hrun : training_loop randint randn_like fit evaluate lr_step train test
                   2 [0.5; 1] 1 0 st0 = Ok st1) by reflexivity.
  split; [exact Hrun|].
  apply (training_loop_checkpoint nat nat nat nat unit randint randn_like fit
           evaluate lr_step train test 2 [0.5; 1] 1 0 st0 st1 0%nat 0%nat).
  - lia.
  - lia.
  - exact Hrun.
Defined.

Lemma training_loop_output_witness :
  let randint := fun (g : nat) (_ : Z) (n : nat) => (S g, repeat 0%Z n) in
  let randn_like := fun (g : nat) (x : batch) => (S g, x) in
  let fit := fun (net : nat) (_ : bool) (opt : nat) (_ : batch) (_ : list Z)
                 (_ : unit) (_ : batch) => (S net, S opt, 1) in
  let evaluate := fun (_ : nat) (_ : bool) (_ : batch) (_ : list Z)
                      (_ : unit) (_ : batch) => 1 in
  let lr_step := fun (l o : nat) => (S l, o) in
  let train := {| len := 1; iterate := fun g : nat => (S g, [([[[[0.5]]]], tt)]) |} in
  let test := {| len := 1; iterate := fun g : nat => (S g, [([[[[0]]]], tt)]) |} in
  let st0 : state nat nat nat nat :=
    {| u_net := 7%nat; training := true; optimizer := 1%nat; lr_schedule := 0%nat;
       loss_log := []; mean_loss := 0; rng := 42%nat;
       checkpoint_file := None; stdout := [] |} in
  let st1 : state nat nat nat nat :=
    {| u_net := 8%nat; training := false; optimizer := 2%nat; lr_schedule := 1%nat;
       loss_log := [1]; mean_loss := 0 + 1; rng := 48%nat;
       checkpoint_file :=
         Some {| ck_epoch := 1%Z; model_state_dict := 8%nat;
                 optimizer_state_dict := 2%nat |};
       stdout := [SkippingEpoch 0; EpochRunning 1;
                  ValidationLoss ((0 + 1) / INR 1); ModelSaved] |} in
  training_loop randint randn_like fit evaluate lr_step train test 2 [0.5; 1]
                2 1 st0 = Ok st1 /\
  exists vs,
    length vs = 1%nat /\
    stdout st1 =
    [] ++ [SkippingEpoch 0] ++ flat_map epoch_lines (combine [1%Z] vs).
Proof.
  intros randint randn_like fit evaluate lr_step train test st0 st1.
  assert (Hrun : training_loop randint randn_like fit evaluate lr_step train test
                   2 [0.5; 1] 2 1 st0 = Ok st1) by reflexivity.
  split; [exact Hrun|].
  exact (training_loop_output nat nat nat nat unit randint randn_like fit
           evaluate lr_step train test 2 [0.5; 1] 2 1 st0 st1 Hrun).
Defined.


Lemma training_loop_loss_log_witness :
  let randint := fun (g : nat) (_ : Z) (n : nat) => (S g, repeat 0%Z n) in
  let randn_like := fun (g : nat) (x : batch) => (S g, x) in
  let fit := fun (net : nat) (_ : bool) (opt : nat) (_ : batch) (_ : list Z)
                 (_ : unit) (_ : batch) => (S net, S opt, 1) in
  let evaluate := fun (_ : nat) (_ : bool) (_ : batch) (_ : list Z)
                      (_ : unit) (_ : batch) => 1 in
  let lr_step := fun (l o : nat) => (S l, o) in
  let train := {| len := 1; iterate := fun g : nat => (S g, [([[[[0.5]]]], tt)]) |} in
  let test := {| len := 1; iterate := fun g : nat => (S g, [([[[[0]]]], tt)]) |} in
  let st0 : state nat nat nat nat :=
    {| u_net := 7%nat; training := true; optimizer := 1%nat; lr_schedule := 0%nat;
       loss_log := [3]; mean_loss := 0; rng := 42%nat;
       checkpoint_file := None; stdout := [] |} in
  let st1 : state nat nat nat nat :=
    {| u_net := 8%nat; training := false; optimizer := 2%nat; lr_schedule := 1%nat;
       loss_log := [3; 1]; mean_loss := 0 + 1; rng := 48%nat;
       checkpoint_file :=
         Some {| ck_epoch := 1%Z; model_state_dict := 8%nat;
                 optimizer_state_dict := 2%nat |};
       stdout := [SkippingEpoch 0; EpochRunning 1;
                  ValidationLoss ((0 + 1) / INR 1); ModelSaved] |} in
  training_loop randint randn_like fit evaluate lr_step train test 2 [0.5; 1]
                2 1 st0 = Ok st1 /\
  exists losses,
    loss_log st1 = [3] ++ losses /\
    length losses = 1%nat.
Proof.
  intros randint randn_like fit evaluate lr_step train test st0 st1.
  assert (Hrun : training_loop randint randn_like fit evaluate lr_step train test
                   2 [0.5; 1] 2 1 st0 = Ok st1) by reflexivity.
  split; [exact Hrun|].
  destruct (training_loop_loss_log nat nat nat nat unit randint randn_like fit
              evaluate lr_step train test 2 [0.5; 1] 2 1 st0 st1 Hrun)
    as (losses & Hlog & Hcount).
  exists losses. split; [exact Hlog|].
  apply Hcount. intros g. reflexivity.
Defined.
